(** * ai-toolkit: response parsing and action dispatch

    A shallow embedding of [parseJSON] (src/index.js) and of the
    [ActionExecutor] class (src/executor.js), with the properties of the
    specification that concern them.

    JavaScript strings are sequences of UTF-16 code units, numbers are
    IEEE-754 doubles, exceptions are a two-constructor completion type,
    and the objects that the executor allocates live in an explicit
    heap so that aliasing can be stated. *)

From Stdlib Require Import ZArith NArith Ascii String PrimFloat.
From stdpp Require Import base option list gmap sorting.

Local Open Scope Z_scope.
Set Warnings "-register-all".

(** ** Strings *)

(** A JavaScript string: its UTF-16 code units. *)
Definition jsstring := list N.

(** The code units of an ASCII literal. *)
Definition js (s : string) : jsstring :=
  N_of_ascii <$> list_ascii_of_string s.

(** Same, with every apostrophe of the literal standing for a double
    quote (code unit 34), to write JSON text legibly. *)
Definition jsq (s : string) : jsstring :=
  (fun c => if (c =? 39)%N then 34%N else c) <$> js s.

Definition ch_backtick : N := 96.
Definition ch_lbrace : N := 123.
Definition ch_rbrace : N := 125.
Definition ch_lbracket : N := 91.
Definition ch_rbracket : N := 93.

(** The class [\s] of a regular expression, which is also the set of
    code units removed by [String.prototype.trim]: WhiteSpace and
    LineTerminator of ECMAScript. *)
Definition is_space (c : N) : bool :=
  ((9 <=? c) && (c <=? 13) || (c =? 32) || (c =? 160) || (c =? 5760)
   || (8192 <=? c) && (c <=? 8202) || (c =? 8232) || (c =? 8233)
   || (c =? 8239) || (c =? 8287) || (c =? 12288) || (c =? 65279))%N.

(** Case-insensitive match of a code unit against an ASCII letter given
    by its upper-case code: without the [u] flag a code unit above 127
    never folds onto an ASCII one. *)
Definition eq_nocase (upper c : N) : bool :=
  ((c =? upper) || (c =? upper + 32))%N.

Fixpoint span_spaces (s : jsstring) : nat :=
  match s with
  | c :: rest => if is_space c then S (span_spaces rest) else O
  | [] => O
  end.

(** A regular expression tried at the head of a string: the length of
    its match there, if any. *)
Definition matcher := jsstring -> option nat.

(** [/```json\s*/i] anchored at the head of [s]. *)
Definition re_fence_json : matcher := fun s =>
  match s with
  | b1 :: b2 :: b3 :: j :: s' :: o :: n :: rest =>
      if ((b1 =? ch_backtick) && (b2 =? ch_backtick) && (b3 =? ch_backtick))%N
         && eq_nocase 74 j && eq_nocase 83 s' && eq_nocase 79 o
         && eq_nocase 78 n
      then Some (7 + span_spaces rest)%nat
      else None
  | _ => None
  end.

(** [/```\s*/] anchored at the head of [s]. *)
Definition re_fence : matcher := fun s =>
  match s with
  | b1 :: b2 :: b3 :: rest =>
      if ((b1 =? ch_backtick) && (b2 =? ch_backtick) && (b3 =? ch_backtick))%N
      then Some (3 + span_spaces rest)%nat
      else None
  | _ => None
  end.

(** [s.replace(re, '')] with the [g] flag: matches are sought left to
    right, a match is dropped and the search resumes after it.  [skip]
    counts the code units of the current match still to be dropped. *)
Fixpoint replace_all (re : matcher) (skip : nat) (s : jsstring) : jsstring :=
  match s with
  | [] => []
  | c :: rest =>
      match skip with
      | S k => replace_all re k rest
      | O =>
          match re s with
          | Some (S k) => replace_all re k rest
          | _ => c :: replace_all re O rest
          end
      end
  end.

Fixpoint trim_start (s : jsstring) : jsstring :=
  match s with
  | c :: rest => if is_space c then trim_start rest else s
  | [] => []
  end.

Definition trim (s : jsstring) : jsstring :=
  reverse (trim_start (reverse (trim_start s))).

(** [s.indexOf(c)] for a one-unit needle, [-1] when absent. *)
Fixpoint indexOf_from (c : N) (s : jsstring) (i : Z) : Z :=
  match s with
  | [] => -1
  | d :: rest => if (d =? c)%N then i else indexOf_from c rest (i + 1)
  end.

Definition indexOf (c : N) (s : jsstring) : Z := indexOf_from c s 0.

(** [s.substring(a, b)]: both ends clamped to [0, length], swapped when
    out of order. *)
Definition substring (s : jsstring) (a b : Z) : jsstring :=
  let len := Z.of_nat (length s) in
  let a' := Z.min (Z.max a 0) len in
  let b' := Z.min (Z.max b 0) len in
  let lo := Z.min a' b' in
  let hi := Z.max a' b' in
  take (Z.to_nat (hi - lo)) (drop (Z.to_nat lo) s).

(** [/^\{[\s\S]*\}$/] and [/^\[[\s\S]*\]$/]: the whole string starts
    with [o] and ends with a distinct occurrence of [c]. *)
Definition re_wrapped (o c : N) (s : jsstring) : bool :=
  match s with
  | first :: rest =>
      (first =? o)%N
      && match last rest with
         | Some l => (l =? c)%N
         | None => false
         end
  | [] => false
  end.

(** ** Values *)

(** Functions are values with an identity; what a user-supplied
    function does when called is given separately (see [call] below).
    [FnAlwaysTrue] is the arrow function [() => true] of [register];
    [FnResolving] is the resolving function that the engine hands to
    the [then] method of an awaited object. *)
Inductive fn :=
| FnAlwaysTrue
| FnResolving
| FnUser (id : N).

Inductive value :=
| VUndefined
| VNull
| VBool (b : bool)
| VNum (x : float)
| VStr (s : jsstring)
| VArr (elems : list value)
| VObj (props : list (jsstring * value))
| VError (message : jsstring)
| VPromise (fulfilled : bool) (payload : value)
| VFun (f : fn).

Inductive jstype :=
| TUndefined | TObject | TBoolean | TNumber | TString | TFunction.

Definition typeof (v : value) : jstype :=
  match v with
  | VUndefined => TUndefined
  | VNull => TObject
  | VBool _ => TBoolean
  | VNum _ => TNumber
  | VStr _ => TString
  | VArr _ | VObj _ | VError _ | VPromise _ _ => TObject
  | VFun _ => TFunction
  end.

Definition jstype_eqb (a b : jstype) : bool :=
  match a, b with
  | TUndefined, TUndefined | TObject, TObject | TBoolean, TBoolean
  | TNumber, TNumber | TString, TString | TFunction, TFunction => true
  | _, _ => false
  end.

(** ToBoolean. *)
Definition truthy (v : value) : bool :=
  match v with
  | VUndefined | VNull => false
  | VBool b => b
  | VNum x => negb (PrimFloat.eqb x 0 || PrimFloat.is_nan x)
  | VStr s => match s with [] => false | _ => true end
  | _ => true
  end.

(** [a || b]. *)
Definition or_else (a b : value) : value := if truthy a then a else b.

(** What an evaluation can raise.  The [Error]s built by the toolkit
    are kept by construction site, with the value interpolated in their
    message:
    - [InvalidHandler n]: [Handler for action "n" must be a function]
    - [DuplicateAction n]: [Action n already registered]
    - [InvalidDecision]: [Invalid decision: missing action]
    - [UnknownAction a]: [Unknown action: a]
    - [InvalidParameters a]: [Invalid parameters for action: a]
    [Raised v] is a value thrown by a user function; the
    [SyntaxError] of [JSON.parse] and the [TypeError]s are the
    engine's, all [Error] objects whose [message] is a string
    ([TypeErrorNotPrimitive]: an object could not be converted to a
    primitive value). *)
Inductive thrown :=
| Raised (v : value)
| SyntaxError
| TypeErrorNullish (prop : jsstring)
| TypeErrorNotCallable
| TypeErrorNotPrimitive
| InvalidHandler (name : jsstring)
| DuplicateAction (name : jsstring)
| InvalidDecision
| UnknownAction (action : value)
| InvalidParameters (action : value).

Inductive completion (A : Type) :=
| Normal (a : A)
| Abrupt (e : thrown).
Arguments Normal {A} a.
Arguments Abrupt {A} e.

Definition bind {A B} (m : completion A) (k : A -> completion B)
  : completion B :=
  match m with
  | Normal a => k a
  | Abrupt e => Abrupt e
  end.

Notation "'let!' x ':=' m 'in' k" := (bind m (fun x => k))
  (at level 10, x name, m at level 100, k at level 200).

Fixpoint assoc (k : jsstring) (props : list (jsstring * value))
  : option value :=
  match props with
  | [] => None
  | (k', v) :: rest => if decide (k' = k) then Some v else assoc k rest
  end.

(** [v.k] for the property names this code reads ([action],
    [parameters], [message], [description], [examples],
    [requiresConfirmation], [validate]): none of them is a built-in
    property of a primitive, an array, a promise or a function. *)
Definition get_prop (v : value) (k : jsstring) : completion value :=
  match v with
  | VUndefined | VNull => Abrupt (TypeErrorNullish k)
  | VObj props => Normal (default VUndefined (assoc k props))
  | VError m => Normal (if decide (k = js "message") then VStr m else VUndefined)
  | _ => Normal VUndefined
  end.

(** ** The response parser (src/index.js, [parseJSON]) *)

(** What the toolkit writes to the console:
    - [LogParseError e]: [console.error('JSON parse error:', error.message)]
      for the caught [e];
    - [LogRawResponse r]: [console.error('Raw response:', response)];
    - [WarnConfirmation a]:
      [console.warn(`Action "${decision.action}" requires confirmation`)]. *)
Inductive console_event :=
| LogParseError (e : thrown)
| LogRawResponse (response : value)
| WarnConfirmation (action : value).

(** The failure value of [parseJSON]:
    [{ error: 'Failed to parse response' }]. *)
Definition parse_failure : value :=
  VObj [(js "error", VStr (js "Failed to parse response"))].

(** Reading [error.message] of a caught exception: the engine's errors
    and the toolkit's own are [Error] objects, a raised value may be
    anything. *)
Definition read_message (e : thrown) : completion unit :=
  match e with
  | Raised v => let! _ := get_prop v (js "message") in Normal tt
  | _ => Normal tt
  end.

(** The two [for] loops of [parseJSON], one per kind of bracket: [rest]
    is the part of [cleaned] from index [i] on, [depth] the counter on
    entry to the iteration.  [Some i] is the index at which the loop
    body returns, [None] a loop that runs off the end of the string. *)
Fixpoint scan_loop (opening closing : N) (rest : jsstring) (i depth : Z)
  : option Z :=
  match rest with
  | [] => None
  | c :: rest' =>
      let depth := if (c =? opening)%N then depth + 1 else depth in
      let depth := if (c =? closing)%N then depth - 1 else depth in
      if depth =? 0 then Some i
      else scan_loop opening closing rest' (i + 1) depth
  end.

Definition clean (response : jsstring) : jsstring :=
  trim (replace_all re_fence O (replace_all re_fence_json O response)).

Section Parser.

(** The host's reading of a JSON text: its value, if it is one. *)
Variable JSON_read : jsstring -> option value.

(** [this.debug]. *)
Variable debug : bool.

(** [JSON.parse(text)]: the value, or a [SyntaxError] thrown. *)
Definition JSON_parse (text : jsstring) : completion value :=
  match JSON_read text with
  | Some v => Normal v
  | None => Abrupt SyntaxError
  end.

Definition balance (opening closing : N) (cleaned : jsstring) (first : Z)
  : completion value :=
  let start := first in
  match scan_loop opening closing (drop (Z.to_nat first) cleaned) first 0 with
  | Some i => JSON_parse (substring cleaned start (i + 1))
  | None => JSON_parse cleaned
  end.

(** The [try] block. *)
Definition parseJSON_try (response : value) : completion value :=
  if jstype_eqb (typeof response) TObject then Normal response
  else
    match response with
    | VStr s =>
        let cleaned := clean s in
        if re_wrapped ch_lbrace ch_rbrace cleaned then JSON_parse cleaned
        else if re_wrapped ch_lbracket ch_rbracket cleaned
        then JSON_parse cleaned
        else
          let firstObject := indexOf ch_lbrace cleaned in
          let firstArray := indexOf ch_lbracket cleaned in
          if (firstObject =? -1) && (firstArray =? -1)
          then JSON_parse cleaned
          else
            let isArray :=
              negb (firstArray =? -1)
              && ((firstObject =? -1) || (firstArray <? firstObject)) in
            if isArray
            then balance ch_lbracket ch_rbracket cleaned firstArray
            else balance ch_lbrace ch_rbrace cleaned firstObject
    | VUndefined => Abrupt (TypeErrorNullish (js "replace"))
    | _ => Abrupt TypeErrorNotCallable
    end.

(** [parseJSON]: its completion and what it writes to the console.
    With [this.debug] the [catch] block reads [error.message]. *)
Definition parseJSON_run (response : value)
  : completion value * list console_event :=
  match parseJSON_try response with
  | Normal v => (Normal v, [])
  | Abrupt e =>
      if debug
      then
        match read_message e with
        | Normal _ =>
            (Normal parse_failure, [LogParseError e; LogRawResponse response])
        | Abrupt e' => (Abrupt e', [])
        end
      else (Normal parse_failure, [])
  end.

Definition parseJSON (response : value) : completion value :=
  fst (parseJSON_run response).

End Parser.

(** ** The action executor (src/executor.js) *)

(** The object stored in the registry for one action.  [register] has
    checked that the handler is a function; nothing is checked about
    [validate]. *)
Record config := {
  cfg_name : jsstring;
  cfg_handler : fn;
  cfg_description : value;
  cfg_parameters : value;
  cfg_examples : value;
  cfg_requiresConfirmation : value;
  cfg_validate : value
}.

(** *** A [Map] with string keys, in insertion order *)

Definition entries := list (jsstring * config).

Fixpoint map_get (name : jsstring) (es : entries) : option config :=
  match es with
  | [] => None
  | (k, c) :: rest => if decide (k = name) then Some c else map_get name rest
  end.

Definition map_has (name : jsstring) (es : entries) : bool :=
  match map_get name es with Some _ => true | None => false end.

(** [set] keeps the position of a key that is present and appends a
    new one. *)
Fixpoint map_set (name : jsstring) (c : config) (es : entries) : entries :=
  match es with
  | [] => [(name, c)]
  | (k, c') :: rest =>
      if decide (k = name) then (k, c) :: rest
      else (k, c') :: map_set name c rest
  end.

Fixpoint map_delete (name : jsstring) (es : entries) : entries :=
  match es with
  | [] => []
  | (k, c) :: rest =>
      if decide (k = name) then rest else (k, c) :: map_delete name rest
  end.

(** *** The heap *)

Definition loc := positive.

Inductive hobj :=
| HMap (es : entries)
| HArray (elems : list value).

Definition alloc (o : hobj) (h : gmap loc hobj) : loc * gmap loc hobj :=
  let l := fresh (dom h) in (l, <[l := o]> h).

Definition map_at (l : loc) (h : gmap loc hobj) : entries :=
  match h !! l with
  | Some (HMap es) => es
  | _ => []
  end.

Definition array_at (l : loc) (h : gmap loc hobj) : list value :=
  match h !! l with
  | Some (HArray xs) => xs
  | _ => []
  end.

(** [a.push(v)]. *)
Definition array_push (a : loc) (v : value) (h : gmap loc hobj)
  : gmap loc hobj :=
  <[a := HArray (array_at a h ++ [v])]> h.

(** *** The class *)

(** An [ActionExecutor] object: its one field. *)
Record executor := { registry : loc }.

(** [new ActionExecutor()]. *)
Definition new_executor (h : gmap loc hobj) : executor * gmap loc hobj :=
  let (l, h') := alloc (HMap []) h in ({| registry := l |}, h').

(** The object literal passed to [this.registry.set]. *)
Definition make_config (name : jsstring) (handler : fn) (metadata : value)
  : completion config :=
  let! description := get_prop metadata (js "description") in
  let! parameters := get_prop metadata (js "parameters") in
  let! examples := get_prop metadata (js "examples") in
  let! requiresConfirmation := get_prop metadata (js "requiresConfirmation") in
  let! validate := get_prop metadata (js "validate") in
  Normal {|
    cfg_name := name;
    cfg_handler := handler;
    cfg_description := or_else description (VStr (js "Execute " ++ name));
    cfg_parameters := or_else parameters (VObj []);
    cfg_examples := or_else examples (VArr []);
    cfg_requiresConfirmation := or_else requiresConfirmation (VBool false);
    cfg_validate := or_else validate (VFun FnAlwaysTrue)
  |}.

(** The default of the parameter [metadata = {}]. *)
Definition defaulted (metadata : value) : value :=
  match metadata with VUndefined => VObj [] | _ => metadata end.

(** [register(name, handler, metadata = {})]; the result is [this]. *)
Definition register (this : executor) (name : jsstring) (handler metadata : value)
    (h : gmap loc hobj) : completion executor * gmap loc hobj :=
  let metadata := defaulted metadata in
  match handler with
  | VFun f =>
      if map_has name (map_at (registry this) h)
      then (Abrupt (DuplicateAction name), h)
      else
        match make_config name f metadata with
        | Normal c =>
            (Normal this,
             <[registry this := HMap (map_set name c (map_at (registry this) h))]> h)
        | Abrupt e => (Abrupt e, h)
        end
  | _ => (Abrupt (InvalidHandler name), h)
  end.

(** [has(name)]. *)
Definition has (this : executor) (name : jsstring) (h : gmap loc hobj) : bool :=
  map_has name (map_at (registry this) h).

(** [unregister(name)]: whether an entry was removed. *)
Definition unregister (this : executor) (name : jsstring) (h : gmap loc hobj)
  : bool * gmap loc hobj :=
  (map_has name (map_at (registry this) h),
   <[registry this := HMap (map_delete name (map_at (registry this) h))]> h).

(** [clear()]. *)
Definition clear (this : executor) (h : gmap loc hobj) : gmap loc hobj :=
  <[registry this := HMap []]> h.

(** [size()]. *)
Definition size (this : executor) (h : gmap loc hobj) : nat :=
  length (map_at (registry this) h).

(** The record pushed by [getAvailableActions] for one entry. *)
Definition available_record (e : jsstring * config) : value :=
  VObj [(js "action", VStr (fst e));
        (js "description", cfg_description (snd e));
        (js "parameters", cfg_parameters (snd e));
        (js "examples", cfg_examples (snd e))].

(** The record pushed by [list] for one entry. *)
Definition list_record (e : jsstring * config) : value :=
  VObj [(js "name", VStr (fst e));
        (js "description", cfg_description (snd e))].

(** [const actions = []; for (... of this.registry) actions.push(...);
    return actions], for either method. *)
Definition collect (record : jsstring * config -> value) (this : executor)
    (h : gmap loc hobj) : loc * gmap loc hobj :=
  let (actions, h1) := alloc (HArray []) h in
  (actions,
   foldl (fun h e => array_push actions (record e) h) h1
     (map_at (registry this) h1)).

Definition getAvailableActions := collect available_record.

Definition list_actions := collect list_record.

(** *** Dispatch *)

(** How a call of a user-supplied function ends.  A function that
    returns a promise returns a [VPromise]. *)
Inductive outcome :=
| Returns (v : value)
| Throws (v : value).

(** What [execute] lets observe: calls of user functions, in order,
    and console output. *)
Inductive event :=
| Called (f : fn) (arg : value)
| Console (c : console_event).

Section Dispatch.

(** What each user-supplied function does on an argument. *)
Variable call : N -> value -> outcome.

Definition call_fn (f : fn) (arg : value) : outcome :=
  match f with
  | FnAlwaysTrue => Returns (VBool true)
  | FnResolving => Returns VUndefined
  | FnUser id => call id arg
  end.

(** [this.registry.get(key)]: the keys of the registry are strings. *)
Definition registry_get (key : value) (es : entries) : option config :=
  match key with
  | VStr name => map_get name es
  | _ => None
  end.

(** [{ success: true, action: decision.action, result }]. *)
Definition success_envelope (action result : value) : value :=
  VObj [(js "success", VBool true); (js "action", action);
        (js "result", result)].

(** [{ success: false, action: decision.action, error: error.message }]. *)
Definition failure_envelope (action message : value) : value :=
  VObj [(js "success", VBool false); (js "action", action);
        (js "error", message)].

(** The [catch (error)] block of [execute]. *)
Definition on_handler_failure (action error : value) : completion value :=
  let! message := get_prop error (js "message") in
  Normal (failure_envelope action message).

(** [v] is a primitive value, not an object. *)
Definition is_primitive (v : value) : bool :=
  match v with
  | VUndefined | VNull | VBool _ | VNum _ | VStr _ => true
  | _ => false
  end.

(** The conversion of an object with the own properties [props] to a
    primitive value, asked for a string: [toString] and then [valueOf]
    are tried, each the object's own property or else the method of
    [Object.prototype]; a method is called without an argument, and the
    first result that is a primitive value is the answer.
    [Object.prototype.toString] answers a string made from the object
    ([self] stands for it); [Object.prototype.valueOf] answers the
    object itself, which is no primitive value. *)
Definition to_primitive_object (props : list (jsstring * value))
    (self : value) : completion value * list event :=
  let try_valueOf (t : list event) :=
    match assoc (js "valueOf") props with
    | Some (VFun g) =>
        match call_fn g VUndefined with
        | Throws e => (Abrupt (Raised e), t ++ [Called g VUndefined])
        | Returns r =>
            if is_primitive r then (Normal r, t ++ [Called g VUndefined])
            else (Abrupt TypeErrorNotPrimitive, t ++ [Called g VUndefined])
        end
    | _ => (Abrupt TypeErrorNotPrimitive, t)
    end in
  match assoc (js "toString") props with
  | None => (Normal self, [])
  | Some (VFun f) =>
      match call_fn f VUndefined with
      | Throws e => (Abrupt (Raised e), [Called f VUndefined])
      | Returns r =>
          if is_primitive r then (Normal r, [Called f VUndefined])
          else try_valueOf [Called f VUndefined]
      end
  | Some _ => try_valueOf []
  end.

(** What the interpolation [`${v}`] of a template literal does before
    the string is made: a primitive value, a function, an [Error] and a
    promise are converted by the engine alone; an object goes through
    [to_primitive_object]; an array joins the conversions of its
    elements, left to right.  The result is a value that the engine
    converts alone to the same string. *)
Fixpoint to_primitive (v : value) : completion value * list event :=
  match v with
  | VArr elems =>
      let fix join (es : list value) : completion (list value) * list event :=
        match es with
        | [] => (Normal [], [])
        | e :: rest =>
            match to_primitive e with
            | (Normal p, t) =>
                match join rest with
                | (Normal ps, t') => (Normal (p :: ps), t ++ t')
                | (Abrupt x, t') => (Abrupt x, t ++ t')
                end
            | (Abrupt x, t) => (Abrupt x, t)
            end
        end in
      match join elems with
      | (Normal ps, t) => (Normal (VArr ps), t)
      | (Abrupt x, t) => (Abrupt x, t)
      end
  | VObj props => to_primitive_object props v
  | _ => (Normal v, [])
  end.

(** [throw new Error(`Unknown action: ${decision.action}`)]. *)
Definition unknown_action (action : value) : completion value * list event :=
  match to_primitive action with
  | (Normal shown, t) => (Abrupt (UnknownAction shown), t)
  | (Abrupt e, t) => (Abrupt e, t)
  end.

(** How the promise of an [async] function ends: settled, fulfilled
    ([Normal]) or rejected ([Abrupt]), or never settled. *)
Inductive settlement :=
| Settled (c : completion value)
| Pending.

(** The [then] method of a value that is awaited: a promise of the
    engine is taken as it is; of the other values, an object with a
    callable [then] has it called. *)
Definition then_of (v : value) : option fn :=
  match v with
  | VObj props =>
      match assoc (js "then") props with
      | Some (VFun g) => Some g
      | _ => None
      end
  | _ => None
  end.

(** The [try] statement of [execute] after the call of the handler:
    the [await] of what it returns, and the [catch].  The [then] of an
    awaited object is called with the resolving functions; a user
    function of this model does not call its argument, so that a
    [then] that returns leaves the promise pending, and one that throws
    rejects it. *)
Definition run_handler (action : value) (handler : fn) (params : value)
  : settlement * list event :=
  match call_fn handler params with
  | Throws error => (Settled (on_handler_failure action error), [])
  | Returns (VPromise false error) =>
      (Settled (on_handler_failure action error), [])
  | Returns (VPromise true result) =>
      (Settled (Normal (success_envelope action result)), [])
  | Returns result =>
      match then_of result with
      | Some g =>
          match call_fn g (VFun FnResolving) with
          | Throws error =>
              (Settled (on_handler_failure action error),
               [Called g (VFun FnResolving)])
          | Returns _ => (Pending, [Called g (VFun FnResolving)])
          end
      | None => (Settled (Normal (success_envelope action result)), [])
      end
  end.

(** [async execute(decision)]: how the promise it returns ends and the
    events on the way. *)
Definition execute (this : executor) (decision : value) (h : gmap loc hobj)
  : settlement * list event :=
  if negb (truthy decision) then (Settled (Abrupt InvalidDecision), [])
  else
    match get_prop decision (js "action") with
    | Abrupt e => (Settled (Abrupt e), [])
    | Normal name =>
        if negb (truthy name) then (Settled (Abrupt InvalidDecision), [])
        else
          match registry_get name (map_at (registry this) h) with
          | None =>
              let (r, t) := unknown_action name in (Settled r, t)
          | Some action =>
              match get_prop decision (js "parameters") with
              | Abrupt e => (Settled (Abrupt e), [])
              | Normal parameters =>
                  (* [decision.parameters || {}]: written twice in the
                     source, for the validator and for the handler *)
                  let arg := or_else parameters (VObj []) in
                  match cfg_validate action with
                  | VFun validate =>
                      let t1 := [Called validate arg] in
                      match call_fn validate arg with
                      | Throws e => (Settled (Abrupt (Raised e)), t1)
                      | Returns ok =>
                          if negb (truthy ok)
                          then (Settled (Abrupt (InvalidParameters name)), t1)
                          else
                            let t2 :=
                              if truthy (cfg_requiresConfirmation action)
                              then t1 ++ [Console (WarnConfirmation name)]
                              else t1 in
                            let (r, t3) :=
                              run_handler name (cfg_handler action) arg in
                            (r, t2 ++ [Called (cfg_handler action) arg] ++ t3)
                      end
                  | _ => (Settled (Abrupt TypeErrorNotCallable), [])
                  end
              end
          end
    end.

End Dispatch.

(** ** Notions of the specification *)

(** The two kinds of bracket: of an object and of an array. *)
Inductive bracket := Brace | Square.

Definition opening (k : bracket) : N :=
  match k with Brace => ch_lbrace | Square => ch_lbracket end.

Definition closing (k : bracket) : N :=
  match k with Brace => ch_rbrace | Square => ch_rbracket end.

Definition other (k : bracket) : bracket :=
  match k with Brace => Square | Square => Brace end.

(** The text is an opening bracket, anything, and the closing bracket
    of the same kind. *)
Definition wrapped (k : bracket) (s : jsstring) : Prop :=
  exists middle, s = opening k :: middle ++ [closing k].

(** [i] is the index of the first occurrence of [c] in [s]. *)
Definition first_at (c : N) (s : jsstring) (i : nat) : Prop :=
  s !! i = Some c /\ forall j, (j < i)%nat -> s !! j <> Some c.

(** The opening bracket of kind [k] at index [i] is the first bracket
    of the text: before it there is no opening bracket of either kind. *)
Definition opens_at (k : bracket) (s : jsstring) (i : nat) : Prop :=
  first_at (opening k) s i
  /\ forall j, (j < i)%nat -> s !! j <> Some (opening (other k)).

(** Opening brackets minus closing brackets of kind [k] in a text. *)
Fixpoint depth_of (k : bracket) (seg : jsstring) : Z :=
  match seg with
  | [] => 0
  | c :: rest =>
      (if (c =? opening k)%N then 1 else 0)
      - (if (c =? closing k)%N then 1 else 0)
      + depth_of k rest
  end.

(** The first [n] code units of [seg] are its minimal balanced prefix:
    the depth is back to zero after them and after no shorter
    non-empty prefix. *)
Definition closes_after (k : bracket) (seg : jsstring) (n : nat) : Prop :=
  (0 < n <= length seg)%nat
  /\ depth_of k (take n seg) = 0
  /\ forall m, (0 < m < n)%nat -> depth_of k (take m seg) <> 0.

(** What [parseJSON] makes of a completion of [JSON.parse]: the value,
    or the failure value in place of the exception. *)
Definition caught (m : completion value) : completion value :=
  match m with
  | Normal v => Normal v
  | Abrupt _ => Normal parse_failure
  end.

(** A value that the glossary calls structured and that is not a
    string: a mapping, a sequence, a number, a boolean or null. *)
Definition structured_non_string (v : value) : bool :=
  match v with
  | VObj _ | VArr _ | VNum _ | VBool _ | VNull => true
  | _ => false
  end.

(** Recovery of a value embedded in prose, for one input: the text is
    not wrapped, it has a bracket, and the result is the parse of the
    minimal balanced text that starts at the first bracket. *)
Definition embedded_recovery (JSON_read : jsstring -> option value)
    (debug : bool) (s : jsstring) : Prop :=
  ~ wrapped Brace (clean s) -> ~ wrapped Square (clean s) ->
  ch_lbrace ∈ clean s \/ ch_lbracket ∈ clean s ->
  exists k first n,
    opens_at k (clean s) first
    /\ closes_after k (drop first (clean s)) n
    /\ parseJSON JSON_read debug (VStr s)
       = caught (JSON_parse JSON_read (take n (drop first (clean s)))).

(** A stand-in for the host's reading of JSON in the examples: a table
    of the few texts they hand to it, every other text being refused.
    On each text it is applied to below it answers as [JSON.parse]
    does. *)
Definition JSON_read_sample (text : jsstring) : option value :=
  if decide (text = jsq "{'x': 5}")
  then Some (VObj [(js "x", VNum 5)])
  else if decide (text = jsq "{'a':1}")
  then Some (VObj [(js "a", VNum 1)])
  else if decide (text = jsq "[1]")
  then Some (VArr [VNum 1])
  else if decide (text = jsq "'{'")
  then Some (VStr (js "{"))
  else None.

(** Registrations in a row, each [(name, handler, metadata)], as in
    [ex.register(...).register(...)]; the first failure ends them. *)
Fixpoint register_all (this : executor)
    (regs : list (jsstring * value * value)) (h : gmap loc hobj)
  : completion executor * gmap loc hobj :=
  match regs with
  | [] => (Normal this, h)
  | (name, handler, metadata) :: rest =>
      match register this name handler metadata h with
      | (Normal this', h') => register_all this' rest h'
      | (Abrupt e, h') => (Abrupt e, h')
      end
  end.

(** The property [k] of the metadata given to [register]: [undefined]
    when it was not supplied. *)
Definition supplied (metadata : value) (k : jsstring) : value :=
  match get_prop (defaulted metadata) k with
  | Normal v => v
  | Abrupt _ => VUndefined
  end.




(** A handler fails with [error]: it throws it, or the promise it
    returns is rejected with it. *)
Definition fails_with (call : N -> value -> outcome) (f : fn) (arg error : value)
  : Prop :=
  call_fn call f arg = Throws error
  \/ call_fn call f arg = Returns (VPromise false error).

(** A handler succeeds with [result]: it returns a promise fulfilled
    with it, or it returns it and [result] is not something that
    [await] waits for: not a promise, and not an object with a callable
    [then]. *)
Definition succeeds_with (call : N -> value -> outcome) (f : fn)
    (arg result : value) : Prop :=
  call_fn call f arg = Returns (VPromise true result)
  \/ (call_fn call f arg = Returns result
      /\ (forall b v, result <> VPromise b v)
      /\ then_of result = None).

(** A handler returns an object whose [then], called by [await],
    throws [error]. *)
Definition then_fails_with (call : N -> value -> outcome) (f : fn)
    (arg error : value) : Prop :=
  exists result g,
    call_fn call f arg = Returns result
    /\ then_of result = Some g
    /\ call_fn call g (VFun FnResolving) = Throws error.

(** A value that the engine converts to a string by itself, without a
    call of a user function and without failure: any value but an
    object with a [toString] property of its own, or an array that
    holds a value that is not plain. *)
Fixpoint plain (v : value) : bool :=
  match v with
  | VArr elems => forallb plain elems
  | VObj props =>
      match assoc (js "toString") props with
      | None => true
      | Some _ => false
      end
  | _ => true
  end.

Definition nullish (v : value) : bool :=
  match v with VUndefined | VNull => true | _ => false end.

(** The hard failures of the three contract checks of [execute]. *)
Definition contract_failure (e : thrown) : Prop :=
  e = InvalidDecision
  \/ (exists a, e = UnknownAction a)
  \/ (exists a, e = InvalidParameters a).

(** User functions for the examples:
    1 returns its argument, 2 throws [new Error('Action failed')],
    3 returns a promise rejected with [new Error('boom')],
    4 throws [new Error('bad params')], 5 returns [false],
    6 throws [null]. *)
Definition call_sample (id : N) (arg : value) : outcome :=
  match id with
  | 1%N => Returns arg
  | 2%N => Throws (VError (js "Action failed"))
  | 3%N => Returns (VPromise false (VError (js "boom")))
  | 4%N => Throws (VError (js "bad params"))
  | 5%N => Returns (VBool false)
  | 6%N => Throws VNull
  | _ => Returns VUndefined
  end.

Definition sample_regs : list (jsstring * value * value) :=
  [(js "b", VFun (FnUser 1), VUndefined);
   (js "a", VFun (FnUser 2),
    VObj [(js "description", VStr (js "Always fails"));
          (js "parameters", VObj [(js "id", VStr (js "string"))])]);
   (js "late", VFun (FnUser 3), VObj []);
   (js "strict", VFun (FnUser 1), VObj [(js "validate", VFun (FnUser 4))]);
   (js "guarded", VFun (FnUser 1), VObj [(js "validate", VFun (FnUser 5))]);
   (js "void", VFun (FnUser 6), VObj [])].

(** [new ActionExecutor()] in the empty heap, then [sample_regs]. *)
Definition sample_executor : executor := fst (new_executor ∅).

Definition sample_heap : gmap loc hobj :=
  snd (register_all sample_executor sample_regs (snd (new_executor ∅))).

(** More user functions and registrations for the examples:
    7 returns an object whose [then] is the function 2 (which throws),
    8 returns an object whose [then] is the function 1 (which returns
    its argument); the others are those of [call_sample]. *)
Definition call_thenable (id : N) (arg : value) : outcome :=
  match id with
  | 7%N => Returns (VObj [(js "then", VFun (FnUser 2))])
  | 8%N => Returns (VObj [(js "then", VFun (FnUser 1))])
  | _ => call_sample id arg
  end.

Definition thenable_heap : gmap loc hobj :=
  snd (register_all sample_executor
         [(js "thenable", VFun (FnUser 7), VUndefined);
          (js "waiting", VFun (FnUser 8), VUndefined)]
         sample_heap).

(** The entry stored by [register(name, f)], and the entries of the
    sample registrations used below. *)
Definition default_config (name : jsstring) (f : fn) : config :=
  {| cfg_name := name;
     cfg_handler := f;
     cfg_description := VStr (js "Execute " ++ name);
     cfg_parameters := VObj [];
     cfg_examples := VArr [];
     cfg_requiresConfirmation := VBool false;
     cfg_validate := VFun FnAlwaysTrue |}.

Definition config_a : config :=
  {| cfg_name := js "a";
     cfg_handler := FnUser 2;
     cfg_description := VStr (js "Always fails");
     cfg_parameters := VObj [(js "id", VStr (js "string"))];
     cfg_examples := VArr [];
     cfg_requiresConfirmation := VBool false;
     cfg_validate := VFun FnAlwaysTrue |}.

Definition config_strict : config :=
  {| cfg_name := js "strict";
     cfg_handler := FnUser 1;
     cfg_description := VStr (js "Execute strict");
     cfg_parameters := VObj [];
     cfg_examples := VArr [];
     cfg_requiresConfirmation := VBool false;
     cfg_validate := VFun (FnUser 4) |}.

(** ** The toolkit's use of the executor (src/index.js) *)

(** The fields of an [AIToolkit] that [execute], [registerAction] and
    the end of [decide] read and write: [this.executor], [null] or an
    [ActionExecutor], and [this.lastResult]. *)
Record toolkit := {
  tk_executor : option executor;
  tk_lastResult : value
}.

(** [new Error('Executor not configured. Initialize with { withExecutor: true }')]. *)
Definition executor_not_configured : value :=
  VError (js "Executor not configured. Initialize with { withExecutor: true }").

(** The object that [decide] builds from the parsed decision:
    [{ success: !decision.error, action: decision.action || null,
       reasoning: decision.reasoning || '',
       confidence: decision.confidence || 0,
       parameters: decision.parameters || {} }].
    An abrupt completion is a jump to the [catch] block of [decide].
    Like the names read by the executor, [error], [reasoning] and
    [confidence] are no built-in property of a primitive, an array, a
    promise or a function. *)
Definition decide_result (decision : value) : completion value :=
  let! error := get_prop decision (js "error") in
  let! action := get_prop decision (js "action") in
  let! reasoning := get_prop decision (js "reasoning") in
  let! confidence := get_prop decision (js "confidence") in
  let! parameters := get_prop decision (js "parameters") in
  Normal (VObj [(js "success", VBool (negb (truthy error)));
                (js "action", or_else action VNull);
                (js "reasoning", or_else reasoning (VStr []));
                (js "confidence", or_else confidence (VNum 0));
                (js "parameters", or_else parameters (VObj []))]).

(** ... followed by [this.lastResult = result]. *)
Definition decide_store (this : toolkit) (decision : value)
  : completion (value * toolkit) :=
  let! result := decide_result decision in
  Normal (result,
          {| tk_executor := tk_executor this; tk_lastResult := result |}).

Section Toolkit.

Variable call : N -> value -> outcome.

(** [async execute(decision)] of the toolkit: the decision of the last
    [decide] stands in for a missing one. *)
Definition toolkit_execute (this : toolkit) (decision : value)
    (h : gmap loc hobj) : settlement * list event :=
  match tk_executor this with
  | None => (Settled (Abrupt (Raised executor_not_configured)), [])
  | Some ex =>
      if negb (truthy decision) && truthy (tk_lastResult this)
      then
        match get_prop (tk_lastResult this) (js "action") with
        | Abrupt e => (Settled (Abrupt e), [])
        | Normal action =>
            if truthy action
            then execute call ex (tk_lastResult this) h
            else execute call ex decision h
        end
      else execute call ex decision h
  end.

End Toolkit.

(** [registerAction(name, handler, metadata)]: the executor is made on
    the first use; the result is what [register] returns. *)
Definition registerAction (this : toolkit) (name : jsstring)
    (handler metadata : value) (h : gmap loc hobj)
  : completion executor * toolkit * gmap loc hobj :=
  match tk_executor this with
  | Some ex =>
      let (r, h') := register ex name handler metadata h in (r, this, h')
  | None =>
      let (ex, h1) := new_executor h in
      let (r, h') := register ex name handler metadata h1 in
      (r, {| tk_executor := Some ex; tk_lastResult := tk_lastResult this |}, h')
  end.

(** ** Telemetry (src/telemetry.js) *)

(** [delete o.k] and [o[k] = v] on the properties of an object. *)
Definition obj_delete (k : jsstring) (props : list (jsstring * value))
  : list (jsstring * value) :=
  filter (fun p => p.1 <> k) props.

Fixpoint obj_set (k : jsstring) (v : value) (props : list (jsstring * value))
  : list (jsstring * value) :=
  match props with
  | [] => [(k, v)]
  | (k', v') :: rest =>
      if decide (k' = k) then (k', v) :: rest
      else (k', v') :: obj_set k v rest
  end.

(** [v !== undefined]. *)
Definition is_defined (v : value) : bool :=
  match v with VUndefined => false | _ => true end.

(** The properties deleted from the copy, and the [allowed] ones. *)
Definition deleted : list jsstring :=
  [js "input"; js "output"; js "content"; js "subject"; js "context";
   js "result"].

Definition allowed : list jsstring :=
  [js "duration"; js "success"; js "error"; js "confidence"; js "score";
   js "operation"; js "engine"; js "schemaSize"; js "actionCount";
   js "chosenAction"; js "inputLength"; js "outputLength"].

(** [sanitizeData(data)], for [data] an object given by its own
    enumerable properties, as at every call of [track] in the toolkit.
    [safe] is the copy [{ ...data }]; none of the allowed names is a
    property of [Object.prototype], so [safe[key]] is the own property
    or [undefined]. *)
Definition sanitizeData (data : list (jsstring * value))
  : list (jsstring * value) :=
  let safe := foldl (fun safe k => obj_delete k safe) data deleted in
  foldl (fun sanitized key =>
           let v := default VUndefined (assoc key safe) in
           if is_defined v then obj_set key v sanitized else sanitized)
        [] allowed.

(** The property names that are integer indices: the decimal numeral,
    without a leading zero, of an integer below [2^32 - 1].  An object
    lists its properties with these first, in ascending order, and
    then the others in the order in which they were added. *)
Definition is_digit (c : N) : bool := ((48 <=? c) && (c <=? 57))%N.

Definition numeral_value (k : jsstring) : N :=
  foldl (fun n c => (10 * n + (c - 48))%N) 0%N k.

Definition is_index (k : jsstring) : bool :=
  match k with
  | [] => false
  | c :: rest =>
      forallb is_digit k
      && (negb (c =? 48)%N || match rest with [] => true | _ => false end)
      && (numeral_value k <? 4294967295)%N
  end.

Definition index_le (p q : jsstring * value) : Prop :=
  (numeral_value p.1 <= numeral_value q.1)%N.

#[global] Instance index_le_dec (p q : jsstring * value)
  : Decision (index_le p q) :=
  decide (numeral_value p.1 <= numeral_value q.1)%N.

Definition own_property_order (props : list (jsstring * value))
  : list (jsstring * value) :=
  merge_sort index_le (filter (fun p => is_index p.1 = true) props)
  ++ filter (fun p => is_index p.1 = false) props.

(** [{ operation, ...data }], the argument that [log(operation, data)]
    of the toolkit hands to [track]. *)
Definition log_entry (operation : value) (data : list (jsstring * value))
  : list (jsstring * value) :=
  own_property_order
    (foldl (fun o p => obj_set p.1 p.2 o) [(js "operation", operation)] data).

(** ** Notions for the rest of the code *)

(** A call that may change the registry. *)
Inductive registry_call :=
| CallRegister (name : jsstring) (handler metadata : value)
| CallUnregister (name : jsstring)
| CallClear.

(** The heap after one such call, whether it returned or threw. *)
Definition run_call (this : executor) (c : registry_call) (h : gmap loc hobj)
  : gmap loc hobj :=
  match c with
  | CallRegister name handler metadata =>
      snd (register this name handler metadata h)
  | CallUnregister name => snd (unregister this name h)
  | CallClear => clear this h
  end.

Definition run_calls (this : executor) (cs : list registry_call)
    (h : gmap loc hobj) : gmap loc hobj :=
  foldl (fun h c => run_call this c h) h cs.

(** The decision is an object whose [action] is truthy. *)
Definition names_action (decision : value) : bool :=
  match decision with
  | VObj props => truthy (default VUndefined (assoc (js "action") props))
  | _ => false
  end.

(** The same entry with another [requiresConfirmation]. *)
Definition with_confirmation (flag : value) (e : jsstring * config)
  : jsstring * config :=
  (fst e,
   {| cfg_name := cfg_name (snd e);
      cfg_handler := cfg_handler (snd e);
      cfg_description := cfg_description (snd e);
      cfg_parameters := cfg_parameters (snd e);
      cfg_examples := cfg_examples (snd e);
      cfg_requiresConfirmation := flag;
      cfg_validate := cfg_validate (snd e) |}).

Definition is_call (e : event) : bool :=
  match e with Called _ _ => true | Console _ => false end.

(** What telemetry keeps of property [k] of [data]: the property
    itself when it is there and not [undefined]. *)
Definition kept (data : list (jsstring * value)) (k : jsstring)
  : option (jsstring * value) :=
  match assoc k data with
  | Some v => if is_defined v then Some (k, v) else None
  | None => None
  end.

(** A toolkit made without [withExecutor]. *)
Definition without_executor (last : value) : toolkit :=
  {| tk_executor := None; tk_lastResult := last |}.

(** The marker of a Markdown code fence, and a text that holds one. *)
Definition fence : jsstring := [ch_backtick; ch_backtick; ch_backtick].

Definition has_fence (s : jsstring) : Prop :=
  exists before after, s = before ++ fence ++ after.

(** A text with no white space at either end. *)
Definition trimmed (s : jsstring) : Prop :=
  (forall c, head s = Some c -> is_space c = false)
  /\ (forall c, last s = Some c -> is_space c = false).

(** The entry stored for the sample registration [guarded]. *)
Definition config_guarded : config :=
  {| cfg_name := js "guarded";
     cfg_handler := FnUser 1;
     cfg_description := VStr (js "Execute guarded");
     cfg_parameters := VObj [];
     cfg_examples := VArr [];
     cfg_requiresConfirmation := VBool false;
     cfg_validate := VFun (FnUser 5) |}.

(** The entry stored for the sample registration [void]. *)
Definition config_void : config := default_config (js "void") (FnUser 6).

(** ** Properties of the parser *)

Lemma re_wrapped_spec (k : bracket) (s : jsstring) :
  re_wrapped (opening k) (closing k) s = true <-> wrapped k s.
Proof.
  unfold re_wrapped, wrapped. split.
  - destruct s as [|c rest]; [discriminate|].
    intros H. apply andb_prop in H as [Hc Hl].
    apply N.eqb_eq in Hc. subst c.
    destruct (last rest) as [l|] eqn:El; [|discriminate].
    apply N.eqb_eq in Hl. subst l.
    apply last_Some in El as [middle ->]. by exists middle.
  - intros [middle ->]. rewrite N.eqb_refl. simpl.
    rewrite last_snoc. by rewrite N.eqb_refl.
Qed.

Lemma re_wrapped_false (k : bracket) (s : jsstring) :
  ~ wrapped k s -> re_wrapped (opening k) (closing k) s = false.
Proof.
  intros H. destruct (re_wrapped _ _ s) eqn:E; [|done].
  by apply re_wrapped_spec in E.
Qed.

Lemma indexOf_from_absent (c : N) (s : jsstring) (i : Z) :
  c ∉ s -> indexOf_from c s i = -1.
Proof.
  revert i. induction s as [|d rest IH]; intros i H; [done|].
  simpl. destruct (N.eqb_spec d c) as [->|Hne].
  - exfalso. apply H. by left.
  - apply IH. intros Hin. apply H. by right.
Qed.

Lemma indexOf_from_first (c : N) (s : jsstring) (i : Z) (n : nat) :
  first_at c s n -> indexOf_from c s i = i + Z.of_nat n.
Proof.
  revert i n. induction s as [|d rest IH]; intros i n [Hn Hmin].
  - destruct n; discriminate Hn.
  - simpl. destruct n as [|n].
    + simpl in Hn. injection Hn as ->. rewrite N.eqb_refl. lia.
    + destruct (N.eqb_spec d c) as [->|Hne].
      * exfalso. apply (Hmin 0%nat); [lia|done].
      * rewrite (IH (i + 1) n); [lia|]. split; [done|].
        intros j Hj. apply (Hmin (S j)). lia.
Qed.

Lemma first_at_exists (c : N) (s : jsstring) :
  c ∈ s -> exists n, first_at c s n.
Proof.
  induction s as [|d rest IH]; intros H.
  - by apply elem_of_nil in H.
  - destruct (decide (d = c)) as [->|Hne].
    + exists 0%nat. split; [done|]. intros j Hj. lia.
    + apply elem_of_cons in H as [->|H]; [done|].
      destruct (IH H) as [n [Hn Hmin]]. exists (S n). split; [done|].
      intros [|j] Hj; simpl; [congruence|]. apply Hmin. lia.
Qed.

Lemma first_at_elem (c : N) (s : jsstring) (n : nat) :
  first_at c s n -> c ∈ s.
Proof. intros [H _]. by eapply list_elem_of_lookup_2. Qed.

Lemma indexOf_first (c : N) (s : jsstring) (n : nat) :
  first_at c s n -> indexOf c s = Z.of_nat n.
Proof. intros H. unfold indexOf. by rewrite (indexOf_from_first c s 0 n). Qed.

Lemma indexOf_absent (c : N) (s : jsstring) :
  c ∉ s -> indexOf c s = -1.
Proof. apply indexOf_from_absent. Qed.

Lemma substring_take_drop (s : jsstring) (a n : nat) :
  (a + n <= length s)%nat ->
  substring s (Z.of_nat a) (Z.of_nat a + Z.of_nat n - 1 + 1)
  = take n (drop a s).
Proof.
  intros H. unfold substring.
  replace (Z.min (Z.max (Z.of_nat a) 0) (Z.of_nat (length s)))
    with (Z.of_nat a) by lia.
  replace (Z.min (Z.max (Z.of_nat a + Z.of_nat n - 1 + 1) 0)
             (Z.of_nat (length s)))
    with (Z.of_nat (a + n)) by lia.
  replace (Z.min (Z.of_nat a) (Z.of_nat (a + n))) with (Z.of_nat a) by lia.
  replace (Z.max (Z.of_nat a) (Z.of_nat (a + n))) with (Z.of_nat (a + n))
    by lia.
  rewrite Nat2Z.id. f_equal. lia.
Qed.

Lemma depth_of_take_S (k : bracket) (c : N) (rest : jsstring) (m : nat) :
  depth_of k (take (S m) (c :: rest))
  = (if (c =? opening k)%N then 1 else 0)
    - (if (c =? closing k)%N then 1 else 0)
    + depth_of k (take m rest).
Proof. reflexivity. Qed.

(** The loop returns at the end of the shortest non-empty prefix of
    [rest] that brings the running depth to zero, and runs off the end
    when there is none. *)
Lemma scan_loop_spec (k : bracket) (rest : jsstring) (i d : Z) :
  match scan_loop (opening k) (closing k) rest i d with
  | Some j =>
      exists n, j = i + Z.of_nat n - 1
        /\ (0 < n <= length rest)%nat
        /\ d + depth_of k (take n rest) = 0
        /\ forall m, (0 < m < n)%nat -> d + depth_of k (take m rest) <> 0
  | None =>
      forall m, (0 < m <= length rest)%nat ->
        d + depth_of k (take m rest) <> 0
  end.
Proof.
  revert i d. induction rest as [|c rest IH]; intros i d; simpl.
  - intros m Hm. lia.
  - set (d1 := if (c =? opening k)%N then d + 1 else d).
    set (d2 := if (c =? closing k)%N then d1 - 1 else d1).
    assert (Hd2 : d2 = d + ((if (c =? opening k)%N then 1 else 0)
                            - (if (c =? closing k)%N then 1 else 0))).
    { unfold d2, d1.
      destruct (c =? opening k)%N, (c =? closing k)%N; lia. }
    destruct (Z.eqb_spec d2 0) as [Hz|Hnz].
    + exists 1%nat. split; [lia|]. split; [simpl; lia|]. split.
      * rewrite depth_of_take_S. rewrite take_0. simpl. lia.
      * intros m Hm. lia.
    + specialize (IH (i + 1) d2).
      destruct (scan_loop (opening k) (closing k) rest (i + 1) d2) as [j|].
      * destruct IH as (n & -> & Hn & Hzero & Hmin).
        exists (S n). split; [lia|]. split; [simpl; lia|]. split.
        -- rewrite depth_of_take_S. lia.
        -- intros [|m] Hm; [lia|]. rewrite depth_of_take_S.
           destruct m as [|m'].
           ++ rewrite take_0. simpl. lia.
           ++ specialize (Hmin (S m')). lia.
      * intros [|m] Hm; [lia|]. rewrite depth_of_take_S.
        destruct m as [|m'].
        -- rewrite take_0. simpl. lia.
        -- specialize (IH (S m')). simpl in Hm. lia.
Qed.

Lemma closes_after_unique (k : bracket) (seg : jsstring) (n n' : nat) :
  closes_after k seg n -> closes_after k seg n' -> n = n'.
Proof.
  intros (Hn & Hz & Hmin) (Hn' & Hz' & Hmin').
  destruct (lt_eq_lt_dec n n') as [[Hlt|Heq]|Hgt]; [|done|].
  - exfalso. apply (Hmin' n); [lia|done].
  - exfalso. apply (Hmin n'); [lia|done].
Qed.

(** Some opening bracket is the first one as soon as there is one. *)
(** The loop, run on a text from its start, decides [closes_after]. *)
Lemma closes_after_scan (k : bracket) (seg : jsstring) (j : Z) :
  scan_loop (opening k) (closing k) seg 0 0 = Some j ->
  closes_after k seg (Z.to_nat (j + 1)).
Proof.
  intros E. pose proof (scan_loop_spec k seg 0 0) as H. rewrite E in H.
  destruct H as (n & -> & Hn & Hz & Hmin).
  replace (Z.to_nat (0 + Z.of_nat n - 1 + 1)) with n by lia.
  split; [done|]. split; [lia|]. intros m Hm. specialize (Hmin m Hm). lia.
Qed.

Lemma opens_at_exists (s : jsstring) :
  ch_lbrace ∈ s \/ ch_lbracket ∈ s -> exists k first, opens_at k s first.
Proof.
  assert (Hone : forall k, opening k ∈ s -> opening (other k) ∉ s ->
                   exists k first, opens_at k s first).
  { intros k Hin Hout. destruct (first_at_exists _ _ Hin) as [i Hi].
    exists k, i. split; [done|]. intros j _ Hj.
    apply Hout. by eapply list_elem_of_lookup_2. }
  assert (Htwo : forall i j, first_at ch_lbrace s i -> first_at ch_lbracket s j ->
                   exists k first, opens_at k s first).
  { intros i j Hi Hj.
    destruct (lt_eq_lt_dec i j) as [[Hlt|Heq]|Hgt].
    - exists Brace, i. split; [done|]. intros m Hm.
      destruct Hj as [_ Hj]. apply Hj. lia.
    - subst j. destruct Hi as [Hi _], Hj as [Hj _]. rewrite Hi in Hj.
      discriminate.
    - exists Square, j. split; [done|]. intros m Hm.
      destruct Hi as [_ Hi]. apply Hi. lia. }
  intros H.
  destruct (decide (ch_lbrace ∈ s)) as [HB|HB],
           (decide (ch_lbracket ∈ s)) as [HS|HS].
  - destruct (first_at_exists _ _ HB) as [i Hi].
    destruct (first_at_exists _ _ HS) as [j Hj]. eauto.
  - by apply (Hone Brace).
  - by apply (Hone Square).
  - tauto.
Qed.

Section ParserFacts.

Variable JSON_read : jsstring -> option value.
Variable debug : bool.

(** What the [try] block can throw: a [SyntaxError] of [JSON.parse], or
    a [TypeError] on an input that has no [replace] method. *)
Lemma parseJSON_try_throws (response : value) (e : thrown) :
  parseJSON_try JSON_read response = Abrupt e ->
  e = SyntaxError \/ e = TypeErrorNotCallable
  \/ e = TypeErrorNullish (js "replace").
Proof.
  assert (Hp : forall text, JSON_parse JSON_read text = Abrupt e ->
                 e = SyntaxError).
  { intros text. unfold JSON_parse. destruct (JSON_read text); congruence. }
  assert (Hb : forall o c cleaned first,
             balance JSON_read o c cleaned first = Abrupt e -> e = SyntaxError).
  { intros o c cleaned first. unfold balance.
    destruct (scan_loop _ _ _ _ _); apply Hp. }
  unfold parseJSON_try.
  destruct response; cbn [typeof jstype_eqb]; try discriminate;
    try (intros [= <-]; tauto).
  repeat match goal with
         | |- context [if ?b then _ else _] => destruct b
         end;
    intros H; left; first [by eapply Hp | by eapply Hb].
Qed.

Lemma parseJSON_caught (response : value) :
  parseJSON JSON_read debug response
  = caught (parseJSON_try JSON_read response).
Proof.
  unfold parseJSON, parseJSON_run.
  destruct (parseJSON_try JSON_read response) as [v|e] eqn:E; [done|].
  apply parseJSON_try_throws in E as [-> | [-> | ->]];
    by destruct debug.
Qed.

(** The branch for brackets of kind [k], entered at the index [first]
    of an opening bracket: it parses the minimal balanced prefix of
    the text from [first] on. *)
Lemma balance_closes (k : bracket) (cleaned : jsstring) (first n : nat) :
  closes_after k (drop first cleaned) n ->
  balance JSON_read (opening k) (closing k) cleaned (Z.of_nat first)
  = JSON_parse JSON_read (take n (drop first cleaned)).
Proof.
  intros Hc. unfold balance. rewrite Nat2Z.id.
  pose proof (scan_loop_spec k (drop first cleaned) (Z.of_nat first) 0) as H.
  destruct (scan_loop _ _ _ _ _) as [j|].
  - destruct H as (n' & -> & Hn' & Hz & Hmin).
    assert (closes_after k (drop first cleaned) n') as Hc'.
    { split; [done|]. split; [lia|]. intros m Hm. specialize (Hmin m Hm). lia. }
    rewrite (closes_after_unique _ _ _ _ Hc Hc').
    rewrite substring_take_drop; [done|].
    rewrite length_drop in Hn'. lia.
  - destruct Hc as (Hn & Hz & _). specialize (H n Hn). lia.
Qed.

(** With no balanced prefix, the whole text is parsed. *)
Lemma balance_open (k : bracket) (cleaned : jsstring) (first : nat) :
  (forall n, ~ closes_after k (drop first cleaned) n) ->
  balance JSON_read (opening k) (closing k) cleaned (Z.of_nat first)
  = JSON_parse JSON_read cleaned.
Proof.
  intros Hno. unfold balance. rewrite Nat2Z.id.
  pose proof (scan_loop_spec k (drop first cleaned) (Z.of_nat first) 0) as H.
  destruct (scan_loop _ _ _ _ _) as [j|]; [|done].
  destruct H as (n' & -> & Hn' & Hz & Hmin).
  exfalso. apply (Hno n'). split; [done|]. split; [lia|].
  intros m Hm. specialize (Hmin m Hm). lia.
Qed.

(** Which branch [parseJSON] takes on a text that is not wrapped. *)
Lemma parseJSON_try_opens (s : jsstring) (k : bracket) (first : nat) :
  ~ wrapped Brace (clean s) -> ~ wrapped Square (clean s) ->
  opens_at k (clean s) first ->
  parseJSON_try JSON_read (VStr s)
  = balance JSON_read (opening k) (closing k) (clean s) (Z.of_nat first).
Proof.
  intros HnB HnS [Hfirst Hother].
  unfold parseJSON_try. cbn [typeof jstype_eqb].
  pose proof (re_wrapped_false Brace _ HnB) as EB.
  pose proof (re_wrapped_false Square _ HnS) as ES.
  cbn [opening closing] in EB, ES. rewrite EB, ES.
  assert (Hoth : indexOf (opening (other k)) (clean s) = -1
                 \/ Z.of_nat first < indexOf (opening (other k)) (clean s)).
  { destruct (decide (opening (other k) ∈ clean s)) as [Hin|Hout].
    - right. destruct (first_at_exists _ _ Hin) as [j Hj].
      rewrite (indexOf_first _ _ _ Hj).
      destruct (lt_eq_lt_dec j first) as [[Hlt|Heq]|Hgt]; [| |lia].
      + exfalso. destruct Hj as [Hj _]. by apply (Hother j).
      + exfalso. subst j. destruct Hj as [Hj _], Hfirst as [Hf _].
        rewrite Hj in Hf. by destruct k.
    - left. by apply indexOf_absent. }
  pose proof (indexOf_first _ _ _ Hfirst) as Hk.
  destruct k; cbn [opening other] in Hk, Hoth; rewrite Hk; cbn [opening closing].
  - (* Brace *)
    replace (Z.of_nat first =? -1) with false by (symmetry; apply Z.eqb_neq; lia).
    simpl.
    destruct Hoth as [-> | Hlt]; [done|].
    replace (indexOf ch_lbracket (clean s) <? Z.of_nat first) with false
      by (symmetry; apply Z.ltb_ge; lia).
    by rewrite andb_false_r.
  - (* Square *)
    replace (Z.of_nat first =? -1) with false by (symmetry; apply Z.eqb_neq; lia).
    rewrite andb_false_r. simpl.
    destruct Hoth as [-> | Hlt]; [done|].
    replace (Z.of_nat first <? indexOf ch_lbrace (clean s)) with true
      by (symmetry; apply Z.ltb_lt; lia).
    by rewrite orb_true_r.
Qed.

End ParserFacts.

Lemma not_wrapped (k : bracket) (s : jsstring) :
  re_wrapped (opening k) (closing k) s = false -> ~ wrapped k s.
Proof. intros E H. apply re_wrapped_spec in H. congruence. Qed.

Lemma first_at_unique (c : N) (s : jsstring) (i j : nat) :
  first_at c s i -> first_at c s j -> i = j.
Proof.
  intros [Hi Hmi] [Hj Hmj].
  destruct (lt_eq_lt_dec i j) as [[Hlt|Heq]|Hgt]; [|done|].
  - exfalso. by apply (Hmj i).
  - exfalso. by apply (Hmi j).
Qed.

Lemma indexOf_first_inv (c : N) (s : jsstring) (n : nat) :
  indexOf c s = Z.of_nat n -> first_at c s n.
Proof.
  intros E. destruct (decide (c ∈ s)) as [Hin|Hout].
  - destruct (first_at_exists _ _ Hin) as [m Hm].
    rewrite (indexOf_first _ _ _ Hm) in E.
    by replace n with m by lia.
  - rewrite (indexOf_absent _ _ Hout) in E. lia.
Qed.

Lemma indexOf_absent_inv (c : N) (s : jsstring) :
  indexOf c s = -1 -> c ∉ s.
Proof.
  intros E Hin. destruct (first_at_exists _ _ Hin) as [m Hm].
  rewrite (indexOf_first _ _ _ Hm) in E. lia.
Qed.

(** *** Recovery of a value embedded in prose *)

(** C1 (as amended).  For a string whose cleaned text is not wrapped
    in one pair of brackets and that has a [{] or a [[], the scan starts
    at the first opening bracket of the text; when the depth returns to
    zero, [parseJSON] returns what [JSON.parse] makes of exactly the
    minimal balanced text from that bracket on (the failure value when
    [JSON.parse] throws); when the depth never returns to zero, it
    returns what [JSON.parse] makes of the whole cleaned text. *)
Theorem parseJSON_embedded (JSON_read : jsstring -> option value)
    (debug : bool) (s : jsstring) :
  ~ wrapped Brace (clean s) -> ~ wrapped Square (clean s) ->
  ch_lbrace ∈ clean s \/ ch_lbracket ∈ clean s ->
  exists k first,
    opens_at k (clean s) first
    /\ (forall n, closes_after k (drop first (clean s)) n ->
          parseJSON JSON_read debug (VStr s)
          = caught (JSON_parse JSON_read (take n (drop first (clean s)))))
    /\ ((forall n, ~ closes_after k (drop first (clean s)) n) ->
          parseJSON JSON_read debug (VStr s)
          = caught (JSON_parse JSON_read (clean s))).
Proof.
  intros HnB HnS Hin.
  destruct (opens_at_exists _ Hin) as (k & first & Hopen).
  exists k, first. split; [done|].
  rewrite parseJSON_caught.
  rewrite (parseJSON_try_opens JSON_read s k first HnB HnS Hopen).
  split.
  - intros n Hn. by rewrite (balance_closes JSON_read k _ _ n Hn).
  - intros Hno. by rewrite (balance_open JSON_read k _ _ Hno).
Qed.

Lemma parseJSON_embedded_witness :
  parseJSON JSON_read_sample false
    (VStr (jsq "Sure, here you go: {'x': 5} Hope that helps!"))
  = Normal (VObj [(js "x", VNum 5)]).
Proof.
  destruct (parseJSON_embedded JSON_read_sample false
              (jsq "Sure, here you go: {'x': 5} Hope that helps!"))
    as (k & first & [Hfirst _] & Hclosed & _).
  - apply (not_wrapped Brace). vm_compute. reflexivity.
  - apply (not_wrapped Square). vm_compute. reflexivity.
  - left. apply list_elem_of_lookup. exists 19%nat. vm_compute. reflexivity.
  - destruct k.
    + assert (first = 19%nat) as ->.
      { apply (first_at_unique _ _ _ _ Hfirst).
        apply indexOf_first_inv. vm_compute. reflexivity. }
      rewrite (Hclosed 8%nat).
      * vm_compute. reflexivity.
      * apply (closes_after_scan Brace _ 7). vm_compute. reflexivity.
    + exfalso. apply first_at_elem in Hfirst. revert Hfirst.
      apply indexOf_absent_inv. vm_compute. reflexivity.
Defined.

(** C1 (as stated) fails on [not json at all {]: the text is not
    wrapped and has a [{], but the depth never returns to zero, so there
    is no balanced text to parse. *)
Lemma parseJSON_embedded_unbalanced :
  ~ exists JSON_read debug,
      embedded_recovery JSON_read debug (js "not json at all {").
Proof.
  intros (JSON_read & debug & H).
  assert (Hclean : clean (js "not json at all {") = js "not json at all {")
    by (vm_compute; reflexivity).
  unfold embedded_recovery in H. rewrite Hclean in H.
  destruct H as (k & first & n & [Hfirst _] & (Hn & Hz & _) & _).
  - apply (not_wrapped Brace). vm_compute. reflexivity.
  - apply (not_wrapped Square). vm_compute. reflexivity.
  - left. apply list_elem_of_lookup. exists 16%nat. vm_compute. reflexivity.
  - destruct k.
    + assert (first = 16%nat) as ->.
      { apply (first_at_unique _ _ _ _ Hfirst).
        apply indexOf_first_inv. vm_compute. reflexivity. }
      assert (n = 1%nat) as -> by (vm_compute in Hn; lia).
      vm_compute in Hz. discriminate.
    + apply first_at_elem in Hfirst. revert Hfirst.
      apply indexOf_absent_inv. vm_compute. reflexivity.
Qed.

(** *** Values that are not strings *)

(** C2 (as amended).  An input whose [typeof] is ['object'] (a mapping,
    a sequence, or null) is returned unchanged; a number or a boolean
    is not: [parseJSON] answers the failure value. *)
Theorem parseJSON_passthrough (JSON_read : jsstring -> option value)
    (debug : bool) (v : value) :
  (typeof v = TObject -> parseJSON JSON_read debug v = Normal v)
  /\ (typeof v = TNumber \/ typeof v = TBoolean ->
      parseJSON JSON_read debug v = Normal parse_failure).
Proof.
  rewrite parseJSON_caught. unfold parseJSON_try. split.
  - intros ->. reflexivity.
  - destruct v; simpl; intros [H|H]; try discriminate; reflexivity.
Qed.

Lemma parseJSON_passthrough_witness :
  parseJSON JSON_read_sample false (VArr [VNum 1; VNull])
  = Normal (VArr [VNum 1; VNull])
  /\ parseJSON JSON_read_sample false (VBool true) = Normal parse_failure.
Proof.
  split.
  - apply (parseJSON_passthrough JSON_read_sample false (VArr [VNum 1; VNull])).
    reflexivity.
  - apply (parseJSON_passthrough JSON_read_sample false (VBool true)).
    right. reflexivity.
Defined.

(** C2 (as stated) fails on the number 5: it is a structured value and
    not a string, and [parseJSON] returns the failure value for it. *)
Lemma parseJSON_number_not_returned :
  structured_non_string (VNum 5) = true
  /\ forall JSON_read debug,
       parseJSON JSON_read debug (VNum 5) = Normal parse_failure
       /\ parseJSON JSON_read debug (VNum 5) <> Normal (VNum 5).
Proof.
  split; [reflexivity|]. intros JSON_read debug.
  rewrite parseJSON_caught. split; [reflexivity|discriminate].
Qed.

(** *** No exception leaves the parser *)

(** C3.  On a string, [parseJSON] completes normally, with or without
    [this.debug].  Its [try] block always ends in one call of
    [JSON.parse], on the cleaned text or on a part of it; whenever that
    block throws, the result is the failure value, an object with the
    single field [error]. *)
Theorem parseJSON_never_throws (JSON_read : jsstring -> option value)
    (debug : bool) (s : jsstring) :
  (exists v, parseJSON JSON_read debug (VStr s) = Normal v)
  /\ (exists a b, parseJSON_try JSON_read (VStr s)
                  = JSON_parse JSON_read (substring (clean s) a b))
  /\ (forall e, parseJSON_try JSON_read (VStr s) = Abrupt e ->
        parseJSON JSON_read debug (VStr s) = Normal parse_failure)
  /\ (forall v, parseJSON_try JSON_read (VStr s) = Normal v ->
        parseJSON JSON_read debug (VStr s) = Normal v)
  /\ exists diagnostic, parse_failure = VObj [(js "error", diagnostic)].
Proof.
  rewrite parseJSON_caught.
  split; [|split; [|split; [|split]]].
  - destruct (parseJSON_try JSON_read (VStr s)); simpl; eauto.
  - assert (Hwhole : substring (clean s) 0 (Z.of_nat (length (clean s)))
                     = clean s).
    { unfold substring.
      replace (Z.min (Z.max 0 0) _) with 0 by lia.
      replace (Z.min (Z.max (Z.of_nat (length (clean s))) 0) _)
        with (Z.of_nat (length (clean s))) by lia.
      replace (Z.min 0 _) with 0 by lia.
      replace (Z.max 0 _) with (Z.of_nat (length (clean s))) by lia.
      rewrite Z.sub_0_r, Nat2Z.id. simpl. by rewrite take_ge. }
    assert (Hbal : forall o c first, exists a b,
               balance JSON_read o c (clean s) first
               = JSON_parse JSON_read (substring (clean s) a b)).
    { intros o c first. unfold balance.
      destruct (scan_loop _ _ _ _ _) as [i|]; [by eauto|].
      exists 0, (Z.of_nat (length (clean s))). by rewrite Hwhole. }
    unfold parseJSON_try. cbn [typeof jstype_eqb].
    repeat match goal with
           | |- context [if ?b then _ else _] => destruct b
           end;
      try apply Hbal;
      exists 0, (Z.of_nat (length (clean s))); by rewrite Hwhole.
  - intros e ->. reflexivity.
  - intros v ->. reflexivity.
  - by eexists.
Qed.

Lemma parseJSON_never_throws_witness :
  parseJSON_try JSON_read_sample (VStr (js "not json at all {"))
  = Abrupt SyntaxError
  /\ parseJSON JSON_read_sample true (VStr (js "not json at all {"))
     = Normal parse_failure.
Proof.
  split; [vm_compute; reflexivity|].
  destruct (parseJSON_never_throws JSON_read_sample true
              (js "not json at all {")) as (_ & _ & H & _).
  apply (H SyntaxError). vm_compute. reflexivity.
Defined.

(** *** Which bracket wins *)

(** C7.  When the cleaned text has both a [{] and a [[] and is not
    wrapped, the bracket whose first occurrence comes first decides the
    branch: with the first [[] before the first [{], [parseJSON] runs
    the array branch from that [[] (and so parses the minimal balanced
    text that starts there, whatever follows it); otherwise it runs the
    object branch from the first [{]. *)
Theorem bracket_priority (JSON_read : jsstring -> option value)
    (debug : bool) (s : jsstring) (firstObject firstArray : nat) :
  ~ wrapped Brace (clean s) -> ~ wrapped Square (clean s) ->
  first_at ch_lbrace (clean s) firstObject ->
  first_at ch_lbracket (clean s) firstArray ->
  ((firstArray < firstObject)%nat ->
     parseJSON JSON_read debug (VStr s)
     = caught (balance JSON_read ch_lbracket ch_rbracket (clean s)
                 (Z.of_nat firstArray))
     /\ forall n, closes_after Square (drop firstArray (clean s)) n ->
          parseJSON JSON_read debug (VStr s)
          = caught (JSON_parse JSON_read (take n (drop firstArray (clean s)))))
  /\ ((firstObject < firstArray)%nat ->
     parseJSON JSON_read debug (VStr s)
     = caught (balance JSON_read ch_lbrace ch_rbrace (clean s)
                 (Z.of_nat firstObject))
     /\ forall n, closes_after Brace (drop firstObject (clean s)) n ->
          parseJSON JSON_read debug (VStr s)
          = caught (JSON_parse JSON_read (take n (drop firstObject (clean s)))))
  /\ firstArray <> firstObject.
Proof.
  intros HnB HnS HB HS. rewrite parseJSON_caught.
  split; [|split].
  - intros Hlt.
    assert (Hopen : opens_at Square (clean s) firstArray).
    { split; [done|]. intros j Hj. destruct HB as [_ HB]. apply HB. lia. }
    rewrite (parseJSON_try_opens JSON_read s Square _ HnB HnS Hopen).
    split; [done|]. intros n Hn.
    by rewrite (balance_closes JSON_read Square _ _ n Hn).
  - intros Hlt.
    assert (Hopen : opens_at Brace (clean s) firstObject).
    { split; [done|]. intros j Hj. destruct HS as [_ HS]. apply HS. lia. }
    rewrite (parseJSON_try_opens JSON_read s Brace _ HnB HnS Hopen).
    split; [done|]. intros n Hn.
    by rewrite (balance_closes JSON_read Brace _ _ n Hn).
  - intros ->. destruct HB as [HB _], HS as [HS _]. rewrite HB in HS.
    discriminate.
Qed.

Lemma bracket_priority_witness :
  let s := jsq "see [1] and {'a':[1,2]} ok" in
  parseJSON JSON_read_sample false (VStr s) = Normal (VArr [VNum 1]).
Proof.
  intros s.
  destruct (bracket_priority JSON_read_sample false s 12 4) as ((_ & H) & _).
  - apply (not_wrapped Brace). vm_compute. reflexivity.
  - apply (not_wrapped Square). vm_compute. reflexivity.
  - apply indexOf_first_inv. vm_compute. reflexivity.
  - apply indexOf_first_inv. vm_compute. reflexivity.
  - lia.
  - rewrite (H 3%nat).
    + vm_compute. reflexivity.
    + apply (closes_after_scan Square _ 2). vm_compute. reflexivity.
Defined.

(** Examples of the specification (section 8). *)

Example parse_fenced :
  parseJSON JSON_read_sample false
    (VStr (js "```json" ++ [10%N] ++ jsq "{'a':1}" ++ [10%N] ++ js "```"))
  = Normal (VObj [(js "a", VNum 1)]).
Proof. vm_compute. reflexivity. Qed.

Example parse_in_prose :
  parseJSON JSON_read_sample false
    (VStr (jsq "Sure, here you go: {'x': 5} Hope that helps!"))
  = Normal (VObj [(js "x", VNum 5)]).
Proof. vm_compute. reflexivity. Qed.

Example parse_unbalanced :
  parseJSON JSON_read_sample false (VStr (js "not json at all {"))
  = Normal parse_failure.
Proof. vm_compute. reflexivity. Qed.

(** A JSON string that holds a bracket: the scan runs off the end and
    the whole text is parsed. *)
Example parse_string_with_brace :
  parseJSON JSON_read_sample false (VStr (jsq "'{'")) = Normal (VStr (js "{")).
Proof. vm_compute. reflexivity. Qed.

(** A wrapped text is parsed whole, even when a shorter balanced text
    starts it. *)
Example parse_wrapped_whole (JSON_read : jsstring -> option value) :
  parseJSON JSON_read false (VStr (jsq "{'a':1} and {'b':2}"))
  = caught (JSON_parse JSON_read (jsq "{'a':1} and {'b':2}")).
Proof. rewrite parseJSON_caught. reflexivity. Qed.


(** ** Properties of the executor *)

(** *** The registry as a map *)

Lemma map_set_absent (name : jsstring) (c : config) (es : entries) :
  map_has name es = false -> map_set name c es = es ++ [(name, c)].
Proof.
  unfold map_has. induction es as [|[k c'] rest IH]; simpl; [done|].
  destruct (decide (k = name)); [done|].
  intros H. by rewrite IH.
Qed.

Lemma map_at_lookup (l : loc) (h : gmap loc hobj) (es : entries) :
  h !! l = Some (HMap es) -> map_at l h = es.
Proof. unfold map_at. by intros ->. Qed.

Lemma array_at_lookup (l : loc) (h : gmap loc hobj) (xs : list value) :
  h !! l = Some (HArray xs) -> array_at l h = xs.
Proof. unfold array_at. by intros ->. Qed.

(** After the constructor the registry is an empty map in the heap. *)
Lemma new_executor_spec (h : gmap loc hobj) (this : executor)
    (h' : gmap loc hobj) :
  new_executor h = (this, h') ->
  h' !! registry this = Some (HMap [])
  /\ h !! registry this = None.
Proof.
  unfold new_executor, alloc. intros [= <- <-]. simpl. split.
  - apply lookup_insert_eq.
  - apply not_elem_of_dom. apply is_fresh.
Qed.

(** *** Registration *)

Lemma make_config_supplied (name : jsstring) (f : fn) (metadata : value)
    (c : config) :
  make_config name f (defaulted metadata) = Normal c ->
  c = {| cfg_name := name;
         cfg_handler := f;
         cfg_description :=
           or_else (supplied metadata (js "description"))
             (VStr (js "Execute " ++ name));
         cfg_parameters :=
           or_else (supplied metadata (js "parameters")) (VObj []);
         cfg_examples := or_else (supplied metadata (js "examples")) (VArr []);
         cfg_requiresConfirmation :=
           or_else (supplied metadata (js "requiresConfirmation")) (VBool false);
         cfg_validate :=
           or_else (supplied metadata (js "validate")) (VFun FnAlwaysTrue) |}.
Proof.
  unfold make_config, supplied.
  destruct (get_prop (defaulted metadata) (js "description")); [|discriminate].
  destruct (get_prop (defaulted metadata) (js "parameters")); [|discriminate].
  destruct (get_prop (defaulted metadata) (js "examples")); [|discriminate].
  destruct (get_prop (defaulted metadata) (js "requiresConfirmation"));
    [|discriminate].
  destruct (get_prop (defaulted metadata) (js "validate")); [|discriminate].
  simpl. by intros [= <-].
Qed.

(** A registration that succeeds appends one entry and touches nothing
    else in the heap. *)
Lemma register_succeeds (this this' : executor) (name : jsstring)
    (handler metadata : value) (h h' : gmap loc hobj) :
  register this name handler metadata h = (Normal this', h') ->
  this' = this
  /\ has this name h = false
  /\ exists f c,
       handler = VFun f
       /\ make_config name f (defaulted metadata) = Normal c
       /\ h' = <[registry this :=
                   HMap (map_at (registry this) h ++ [(name, c)])]> h.
Proof.
  unfold register, has.
  destruct handler; try discriminate.
  destruct (map_has name (map_at (registry this) h)) eqn:Ehas; [discriminate|].
  destruct (make_config name f (defaulted metadata)) as [c|] eqn:Ec;
    [|discriminate].
  intros [= <- <-]. split; [done|]. split; [done|].
  exists f, c. by rewrite map_set_absent.
Qed.


(** Names stay unique in the registry. *)
Lemma register_keeps_names_unique (this this' : executor) (name : jsstring)
    (handler metadata : value) (h h' : gmap loc hobj) (es : entries) :
  h !! registry this = Some (HMap es) ->
  NoDup es.*1 ->
  register this name handler metadata h = (Normal this', h') ->
  NoDup (map_at (registry this') h').*1.
Proof.
  intros Hreg Hnd Hr.
  apply register_succeeds in Hr as (-> & Hnew & f & c & _ & _ & ->).
  unfold has in Hnew. rewrite (map_at_lookup _ _ _ Hreg) in *.
  rewrite (map_at_lookup _ _ (es ++ [(name, c)])); [|apply lookup_insert_eq].
  rewrite fmap_app. apply NoDup_app. split; [done|]. split.
  - intros k Hk Hk'. apply list_elem_of_singleton in Hk'. simpl in Hk'. subst k.
    apply list_elem_of_fmap in Hk as [[k c'] [-> Hin]]. simpl in Hnew.
    clear Hreg Hnd. induction es as [|[k2 c2] rest IH].
    + by apply elem_of_nil in Hin.
    + unfold map_has in Hnew. simpl in Hnew.
      destruct (decide (k2 = k)) as [->|Hne]; [discriminate|].
      apply elem_of_cons in Hin as [[= -> ->]|Hin]; [done|].
      by apply IH.
  - apply NoDup_singleton.
Qed.

Lemma map_get_elem (name : jsstring) (es : entries) (c : config) :
  map_get name es = Some c -> name ∈ es.*1.
Proof.
  induction es as [|[k c'] rest IH]; simpl; [discriminate|].
  destruct (decide (k = name)) as [->|]; [by left|].
  intros H. right. by apply IH.
Qed.

Lemma map_delete_absent (name : jsstring) (es : entries) :
  NoDup es.*1 -> map_has name (map_delete name es) = false.
Proof.
  unfold map_has. induction es as [|[k c] rest IH]; simpl; [done|].
  intros [Hk Hnd]%NoDup_cons.
  destruct (decide (k = name)) as [->|Hne].
  - destruct (map_get name rest) as [c'|] eqn:E; [|done].
    exfalso. apply Hk. by eapply map_get_elem.
  - simpl. destruct (decide (k = name)); [done|]. by apply IH.
Qed.

(** [unregister] tells whether the name was registered and leaves it
    unregistered; [clear] leaves nothing. *)
Lemma unregister_spec (this : executor) (name : jsstring) (h : gmap loc hobj)
    (es : entries) :
  h !! registry this = Some (HMap es) ->
  NoDup es.*1 ->
  fst (unregister this name h) = has this name h
  /\ has this name (snd (unregister this name h)) = false.
Proof.
  intros Hreg Hnd. unfold unregister, has. simpl. split; [done|].
  rewrite (map_at_lookup _ _ (map_delete name (map_at (registry this) h)));
    [|apply lookup_insert_eq].
  rewrite (map_at_lookup _ _ _ Hreg). by apply map_delete_absent.
Qed.

Lemma clear_spec (this : executor) (h : gmap loc hobj) :
  size this (clear this h) = 0%nat.
Proof.
  unfold size, clear. by rewrite (map_at_lookup _ _ []); [|apply lookup_insert_eq].
Qed.

(** *** Listing *)

Lemma push_all (record : jsstring * config -> value) (actions : loc)
    (es : entries) (h : gmap loc hobj) (xs : list value) :
  h !! actions = Some (HArray xs) ->
  foldl (fun h e => array_push actions (record e) h) h es
  = <[actions := HArray (xs ++ (record <$> es))]> h.
Proof.
  revert h xs. induction es as [|e rest IH]; intros h xs Hx; simpl.
  - rewrite app_nil_r. by rewrite insert_id.
  - unfold array_push at 2. rewrite (array_at_lookup _ _ _ Hx).
    rewrite (IH _ (xs ++ [record e])); [|apply lookup_insert_eq].
    rewrite insert_insert_eq. by rewrite <- app_assoc.
Qed.

Lemma collect_spec (record : jsstring * config -> value) (this : executor)
    (h : gmap loc hobj) (es : entries) :
  h !! registry this = Some (HMap es) ->
  exists l,
    collect record this h = (l, <[l := HArray (record <$> es)]> h)
    /\ h !! l = None.
Proof.
  intros Hreg. unfold collect, alloc.
  set (l := fresh (dom h)).
  assert (Hl : h !! l = None) by (apply not_elem_of_dom, is_fresh).
  assert (Hne : registry this <> l) by (intros E; rewrite E in Hreg; congruence).
  exists l. split; [|done]. f_equal.
  rewrite (map_at_lookup _ _ es); [|by rewrite lookup_insert_ne].
  rewrite (push_all record l es _ []); [|apply lookup_insert_eq].
  by rewrite insert_insert_eq.
Qed.




(** The example of the specification: [b] registered before [a]. *)
Example list_in_registration_order :
  let (l, h) := list_actions sample_executor sample_heap in
  take 2 (array_at l h)
  = [VObj [(js "name", VStr (js "b")); (js "description", VStr (js "Execute b"))];
     VObj [(js "name", VStr (js "a"));
           (js "description", VStr (js "Always fails"))]].
Proof. vm_compute. reflexivity. Qed.

(** C5.  Registering a name that is already registered fails and
    leaves the heap, hence the registry, as it was: [has(name)] is
    still true and the stored entry is the same; registering a handler
    that is not a function fails in the same way. *)
Theorem register_rejects_without_change (this : executor) (name : jsstring)
    (handler metadata : value) (h : gmap loc hobj) :
  (has this name h = true ->
   exists e,
     register this name handler metadata h = (Abrupt e, h)
     /\ (typeof handler = TFunction -> e = DuplicateAction name)
     /\ has this name (snd (register this name handler metadata h)) = true
     /\ map_get name
          (map_at (registry this) (snd (register this name handler metadata h)))
        = map_get name (map_at (registry this) h))
  /\ (typeof handler <> TFunction ->
      register this name handler metadata h = (Abrupt (InvalidHandler name), h)).
Proof.
  split.
  - unfold has. intros Hhas.
    assert (exists e, register this name handler metadata h = (Abrupt e, h)
                      /\ (typeof handler = TFunction -> e = DuplicateAction name))
      as (e & He & Hdup).
    { unfold register. destruct handler;
        try (eexists; split; [reflexivity|discriminate]).
      rewrite Hhas. by eexists. }
    exists e. rewrite He. simpl. by unfold has.
  - intros Hty. unfold register. by destruct handler.
Qed.

Lemma register_rejects_without_change_witness :
  (exists e,
     register sample_executor (js "a") (VFun (FnUser 1)) VUndefined sample_heap
     = (Abrupt e, sample_heap))
  /\ register sample_executor (js "fresh") (VStr (js "not a function"))
       VUndefined sample_heap
     = (Abrupt (InvalidHandler (js "fresh")), sample_heap).
Proof.
  split.
  - destruct (register_rejects_without_change sample_executor (js "a")
                (VFun (FnUser 1)) VUndefined sample_heap) as [H _].
    destruct H as (e & He & _); [vm_compute; reflexivity|].
    by exists e.
  - apply (register_rejects_without_change sample_executor (js "fresh")
             (VStr (js "not a function")) VUndefined sample_heap).
    discriminate.
Defined.

(** *** Dispatch *)

Lemma get_prop_truthy (v : value) (k : jsstring) :
  truthy v = true -> exists x, get_prop v k = Normal x.
Proof. destruct v; simpl; try discriminate; eauto. Qed.

(** A decision whose [action] is truthy is an object with that
    property. *)
Lemma decision_with_action (decision name : value) :
  get_prop decision (js "action") = Normal name -> truthy name = true ->
  exists props,
    decision = VObj props /\ assoc (js "action") props = Some name.
Proof.
  destruct decision; simpl; try discriminate;
    try (intros [= <-]; discriminate).
  intros [= <-] Ht. exists props.
  split; [done|]. by destruct (assoc (js "action") props).
Qed.

(** The conversion of a plain value calls nothing and gives the value
    itself. *)
Lemma plain_to_primitive (call : N -> value -> outcome) (v : value) :
  plain v = true -> to_primitive call v = (Normal v, []).
Proof.
  revert v. fix IH 1. intros v. destruct v; try reflexivity.
  - intros H. cbn [plain] in H. cbn [to_primitive].
    assert (Hjoin :
      (fix join (es : list value) : completion (list value) * list event :=
         match es with
         | [] => (Normal [], [])
         | e :: rest =>
             match to_primitive call e with
             | (Normal p, t) =>
                 match join rest with
                 | (Normal ps, t') => (Normal (p :: ps), t ++ t')
                 | (Abrupt x, t') => (Abrupt x, t ++ t')
                 end
             | (Abrupt x, t) => (Abrupt x, t)
             end
         end) elems = (Normal elems, [])).
    { revert H. induction elems as [|e rest IHl]; [done|].
      cbn [forallb]. intros [He Hr]%andb_prop.
      rewrite (IH e He), (IHl Hr). reflexivity. }
    by rewrite Hjoin.
  - cbn [plain to_primitive]. unfold to_primitive_object.
    by destruct (assoc (js "toString") props).
Qed.

(** The conversion fails with the engine's [TypeError] or with what a
    user function threw. *)
Lemma to_primitive_throws (call : N -> value -> outcome) (v : value)
    (x : thrown) :
  fst (to_primitive call v) = Abrupt x ->
  x = TypeErrorNotPrimitive \/ exists e, x = Raised e.
Proof.
  revert v. fix IH 1. intros v. destruct v; try discriminate.
  - cbn [to_primitive].
    assert (Hjoin :
      fst ((fix join (es : list value)
              : completion (list value) * list event :=
              match es with
              | [] => (Normal [], [])
              | e :: rest =>
                  match to_primitive call e with
                  | (Normal p, t) =>
                      match join rest with
                      | (Normal ps, t') => (Normal (p :: ps), t ++ t')
                      | (Abrupt x, t') => (Abrupt x, t ++ t')
                      end
                  | (Abrupt x, t) => (Abrupt x, t)
                  end
              end) elems) = Abrupt x ->
      x = TypeErrorNotPrimitive \/ exists e, x = Raised e).
    { induction elems as [|e rest IHl]; [discriminate|].
      pose proof (IH e) as He.
      destruct (to_primitive call e) as [[p|y] t].
      - destruct ((fix join (es : list value)
                     : completion (list value) * list event := _) rest)
          as [[ps|y] t'].
        + discriminate.
        + intros [= ->]. by apply IHl.
      - intros [= ->]. by apply He. }
    destruct ((fix join (es : list value)
                 : completion (list value) * list event := _) elems)
      as [[ps|y] t]; [discriminate|].
    intros [= ->]. by apply Hjoin.
  - clear IH. cbn [to_primitive]. unfold to_primitive_object.
    assert (Hv : forall t,
      fst (match assoc (js "valueOf") props with
           | Some (VFun g) =>
               match call_fn call g VUndefined with
               | Throws e => (Abrupt (Raised e), t ++ [Called g VUndefined])
               | Returns r =>
                   if is_primitive r
                   then (Normal r, t ++ [Called g VUndefined])
                   else (Abrupt TypeErrorNotPrimitive,
                         t ++ [Called g VUndefined])
               end
           | _ => (Abrupt TypeErrorNotPrimitive, t)
           end : completion value * list event) = Abrupt x ->
      x = TypeErrorNotPrimitive \/ exists e, x = Raised e).
    { intros t.
      destruct (assoc (js "valueOf") props) as [[| | | | | | | | | g]|];
        try (intros [= <-]; by left).
      destruct (call_fn call g VUndefined) as [r|e].
      - destruct (is_primitive r); [discriminate|]. intros [= <-]. by left.
      - intros [= <-]. right. by eexists. }
    destruct (assoc (js "toString") props) as [[| | | | | | | | | f]|];
      try apply Hv; [|discriminate].
    destruct (call_fn call f VUndefined) as [r|e].
    + destruct (is_primitive r); [discriminate|apply Hv].
    + intros [= <-]. right. by eexists.
Qed.

Section DispatchFacts.

Variable call : N -> value -> outcome.

(** [execute] up to the lookup in the registry, for a decision that is
    an object with a truthy [action]. *)
Lemma execute_lookup (this : executor) (props : list (jsstring * value))
    (name : value) (h : gmap loc hobj) :
  assoc (js "action") props = Some name -> truthy name = true ->
  execute call this (VObj props) h
  = match registry_get name (map_at (registry this) h) with
    | None => let (r, t) := unknown_action call name in (Settled r, t)
    | Some action =>
        let arg :=
          or_else (default VUndefined (assoc (js "parameters") props))
            (VObj []) in
        match cfg_validate action with
        | VFun validate =>
            match call_fn call validate arg with
            | Throws e => (Settled (Abrupt (Raised e)), [Called validate arg])
            | Returns ok =>
                if negb (truthy ok)
                then (Settled (Abrupt (InvalidParameters name)),
                      [Called validate arg])
                else
                  let (r, t3) :=
                    run_handler call name (cfg_handler action) arg in
                  (r,
                   (if truthy (cfg_requiresConfirmation action)
                    then [Called validate arg] ++ [Console (WarnConfirmation name)]
                    else [Called validate arg])
                   ++ [Called (cfg_handler action) arg] ++ t3)
            end
        | _ => (Settled (Abrupt TypeErrorNotCallable), [])
        end
    end.
Proof.
  intros Ha Ht. unfold execute.
  change (truthy (VObj props)) with true. cbn [negb get_prop].
  rewrite Ha. cbn [from_option id]. rewrite Ht. cbn [negb]. reflexivity.
Qed.

(** A decision that is not an object with a truthy [action] is
    refused by the first check. *)
Lemma execute_without_action (this : executor) (decision : value)
    (h : gmap loc hobj) :
  names_action decision = false ->
  execute call this decision h = (Settled (Abrupt InvalidDecision), []).
Proof.
  intros En. unfold execute. destruct decision; try reflexivity.
  - by destruct b.
  - by destruct (negb (truthy (VNum x))).
  - by destruct s.
  - simpl in En. change (truthy (VObj props)) with true.
    cbn [negb get_prop]. by rewrite En.
Qed.

(** A rejection of the [try] statement comes from reading
    [error.message]. *)
Lemma run_handler_rejects (action : value) (handler : fn) (params : value)
    (e : thrown) :
  fst (run_handler call action handler params) = Settled (Abrupt e) ->
  e = TypeErrorNullish (js "message").
Proof.
  assert (Hcatch : forall error t,
             fst (Settled (on_handler_failure action error), t : list event)
             = Settled (Abrupt e) ->
             e = TypeErrorNullish (js "message")).
  { intros error t. unfold on_handler_failure.
    destruct error; simpl; congruence. }
  unfold run_handler.
  destruct (call_fn call handler params) as [r|err]; [|apply Hcatch].
  destruct r as [| | | | | | props | | fulfilled payload |];
    try discriminate.
  - cbn [then_of].
    destruct (assoc (js "then") props) as [[| | | | | | | | | g]|];
      try discriminate.
    destruct (call_fn call g (VFun FnResolving)); [discriminate|].
    apply Hcatch.
  - destruct fulfilled; [discriminate|]. apply Hcatch.
Qed.

(** A registered action is found under a string. *)
Lemma registry_get_Some (key : value) (es : entries) (c : config) :
  registry_get key es = Some c ->
  exists name, key = VStr name /\ map_get name es = Some c.
Proof. destruct key; try discriminate. simpl. eauto. Qed.


(** C10.  When the validator of the registered action throws,
    [execute] rejects with the very value thrown: not with the
    [Invalid parameters] error, and not by returning an envelope; the
    handler is not called. *)
Theorem validator_exception_propagates (this : executor)
    (props : list (jsstring * value)) (name : jsstring) (c : config)
    (validate : fn) (e : value) (h : gmap loc hobj) :
  assoc (js "action") props = Some (VStr name) ->
  name <> [] ->
  map_get name (map_at (registry this) h) = Some c ->
  cfg_validate c = VFun validate ->
  call_fn call validate
    (or_else (default VUndefined (assoc (js "parameters") props)) (VObj []))
  = Throws e ->
  execute call this (VObj props) h
  = (Settled (Abrupt (Raised e)),
     [Called validate
        (or_else (default VUndefined (assoc (js "parameters") props))
           (VObj []))])
  /\ ~ contract_failure (Raised e).
Proof.
  intros Ha Hne Hc Hv Hthrow. split.
  - rewrite (execute_lookup this props (VStr name) h Ha);
      [|by destruct name].
    cbn [registry_get]. rewrite Hc. cbv zeta. rewrite Hv, Hthrow. reflexivity.
  - intros [H|[[a H]|[a H]]]; discriminate.
Qed.

(** C8 (as amended).  For a registered action whose validator accepts
    the empty mapping, a decision with that action and no [parameters]
    makes [execute] call the validator and then the handler, each with
    the empty mapping (with the confirmation warning in between when
    the action asks for it) and before anything else; when the handler
    succeeds (it returns a promise that is fulfilled, or a value that
    is neither a promise nor an object with a callable [then]), these
    are all the calls and the promise is fulfilled with
    [{success: true, action, result}]. *)
Theorem execute_defaults_parameters (this : executor)
    (props : list (jsstring * value)) (name : jsstring) (c : config)
    (validate : fn) (ok : value) (h : gmap loc hobj) :
  assoc (js "action") props = Some (VStr name) ->
  name <> [] ->
  assoc (js "parameters") props = None ->
  map_get name (map_at (registry this) h) = Some c ->
  cfg_validate c = VFun validate ->
  call_fn call validate (VObj []) = Returns ok ->
  truthy ok = true ->
  (exists rest,
     snd (execute call this (VObj props) h)
     = [Called validate (VObj [])]
       ++ (if truthy (cfg_requiresConfirmation c)
           then [Console (WarnConfirmation (VStr name))] else [])
       ++ [Called (cfg_handler c) (VObj [])] ++ rest)
  /\ forall result,
       succeeds_with call (cfg_handler c) (VObj []) result ->
       execute call this (VObj props) h
       = (Settled (Normal (success_envelope (VStr name) result)),
          [Called validate (VObj [])]
          ++ (if truthy (cfg_requiresConfirmation c)
              then [Console (WarnConfirmation (VStr name))] else [])
          ++ [Called (cfg_handler c) (VObj [])]).
Proof.
  intros Ha Hne Hp Hc Hv Hok Ht.
  rewrite (execute_lookup this props (VStr name) h Ha); [|by destruct name].
  cbn [registry_get]. rewrite Hc, Hp. cbn [from_option].
  change (or_else VUndefined (VObj [])) with (VObj []). cbv zeta.
  rewrite Hv, Hok, Ht. cbn [negb]. split.
  - destruct (run_handler call (VStr name) (cfg_handler c) (VObj []))
      as [r t3]. exists t3. cbn [snd].
    by destruct (truthy (cfg_requiresConfirmation c)).
  - intros result Hs.
    assert (Hrun : run_handler call (VStr name) (cfg_handler c) (VObj [])
                   = (Settled (Normal (success_envelope (VStr name) result)),
                      [])).
    { unfold run_handler. destruct Hs as [-> | (-> & Hnp & Hthen)]; [done|].
      rewrite Hthen.
      destruct result as [| | | | | | | | b p |]; try reflexivity.
      by destruct (Hnp b p). }
    rewrite Hrun, app_nil_r.
    by destruct (truthy (cfg_requiresConfirmation c)).
Qed.

(** C4 (as amended).  When the handler of the registered action has
    been called and throws, or returns a promise that is rejected, with
    a value that is neither [null] nor [undefined], [execute] does not
    reject: its promise is fulfilled with
    [{success: false, action, error}], where [error] is the [message]
    property of that value.  And leaving aside the [TypeError] that
    reading the [message] of [null] or [undefined] raises, every
    rejection of [execute] is one of the three contract failures, or
    the failure of the conversion to a string of an action that is not
    registered, or, for the registered action that the decision names,
    the exception that its validator throws on the parameters of the
    decision, or the [TypeError] of a [validate] that is not a
    function. *)
Theorem handler_failure_isolated (this : executor) (decision : value)
    (h : gmap loc hobj) :
  (forall props name c validate ok error,
     decision = VObj props ->
     assoc (js "action") props = Some (VStr name) ->
     name <> [] ->
     map_get name (map_at (registry this) h) = Some c ->
     cfg_validate c = VFun validate ->
     call_fn call validate
       (or_else (default VUndefined (assoc (js "parameters") props)) (VObj []))
     = Returns ok ->
     truthy ok = true ->
     fails_with call (cfg_handler c)
       (or_else (default VUndefined (assoc (js "parameters") props)) (VObj []))
       error ->
     nullish error = false ->
     exists message,
       get_prop error (js "message") = Normal message
       /\ fst (execute call this decision h)
          = Settled (Normal (failure_envelope (VStr name) message)))
  /\ (forall e,
        fst (execute call this decision h) = Settled (Abrupt e) ->
        e <> TypeErrorNullish (js "message") ->
        contract_failure e
        \/ exists props action,
             decision = VObj props
             /\ assoc (js "action") props = Some action
             /\ ((registry_get action (map_at (registry this) h) = None
                  /\ fst (to_primitive call action) = Abrupt e)
                 \/ exists name c,
                      action = VStr name
                      /\ map_get name (map_at (registry this) h) = Some c
                      /\ ((exists validate v,
                             cfg_validate c = VFun validate
                             /\ call_fn call validate
                                  (or_else
                                     (default VUndefined
                                        (assoc (js "parameters") props))
                                     (VObj []))
                                = Throws v
                             /\ e = Raised v)
                          \/ ((forall f, cfg_validate c <> VFun f)
                              /\ e = TypeErrorNotCallable)))).
Proof.
  split.
  - intros props name c validate ok error -> Ha Hne Hc Hv Hok Ht Hfail Hnn.
    assert (exists message, get_prop error (js "message") = Normal message)
      as [message Hm] by (destruct error; simpl; try discriminate; eauto).
    exists message. split; [done|].
    rewrite (execute_lookup this props (VStr name) h Ha); [|by destruct name].
    cbn [registry_get]. rewrite Hc. cbv zeta.
    rewrite Hv, Hok, Ht. cbn [negb].
    unfold run_handler, on_handler_failure.
    destruct Hfail as [-> | ->]; by rewrite Hm.
  - intros e Hrej Hslip.
    destruct (names_action decision) eqn:En.
    2:{ rewrite (execute_without_action this decision h En) in Hrej.
        injection Hrej as <-. left. by left. }
    destruct decision; try discriminate. cbn [names_action] in En.
    destruct (assoc (js "action") props) as [action|] eqn:Ha;
      [|discriminate].
    cbn [from_option id] in En.
    rewrite (execute_lookup this props action h Ha En) in Hrej.
    destruct (registry_get action (map_at (registry this) h)) as [c|] eqn:Hc.
    + apply registry_get_Some in Hc as (name & -> & Hc).
      cbv zeta in Hrej.
      destruct (cfg_validate c) as [| | | | | | | | | f] eqn:Hv;
        cbn [fst] in Hrej;
        try (injection Hrej as <-; right; exists props, (VStr name);
             split; [done|]; split; [done|]; right; exists name, c;
             split; [done|]; split; [done|]; right;
             split; [intros f'; rewrite Hv; discriminate|done]).
      destruct (call_fn call f _) as [ok|v] eqn:Hval.
      * destruct (truthy ok); cbn [negb] in Hrej.
        -- destruct (run_handler call (VStr name) (cfg_handler c) _)
             as [r t3] eqn:Hrun.
           cbn [fst] in Hrej. subst r. exfalso. apply Hslip.
           eapply run_handler_rejects. by rewrite Hrun.
        -- injection Hrej as <-. left. right. right. by eexists.
      * injection Hrej as <-. right. exists props, (VStr name).
        split; [done|]. split; [done|]. right. exists name, c.
        split; [done|]. split; [done|]. left. by exists f, v.
    + unfold unknown_action in Hrej.
      destruct (to_primitive call action) as [[shown|x] t] eqn:Hconv;
        injection Hrej as <-.
      * left. right. left. by eexists.
      * right. exists props, action. split; [done|]. split; [done|].
        left. split; [done|]. by rewrite Hconv.
Qed.

End DispatchFacts.



Lemma validator_exception_propagates_witness :
  execute call_sample sample_executor
    (VObj [(js "action", VStr (js "strict"))]) sample_heap
  = (Settled (Abrupt (Raised (VError (js "bad params")))),
     [Called (FnUser 4) (VObj [])]).
Proof.
  apply (validator_exception_propagates call_sample sample_executor
           [(js "action", VStr (js "strict"))] (js "strict") config_strict
           (FnUser 4) (VError (js "bad params")) sample_heap).
  - vm_compute. reflexivity.
  - discriminate.
  - vm_compute. reflexivity.
  - reflexivity.
  - reflexivity.
Defined.

Lemma execute_defaults_parameters_witness :
  execute call_sample sample_executor
    (VObj [(js "action", VStr (js "b"))]) sample_heap
  = (Settled (Normal (success_envelope (VStr (js "b")) (VObj []))),
     [Called FnAlwaysTrue (VObj []); Called (FnUser 1) (VObj [])]).
Proof.
  destruct (execute_defaults_parameters call_sample sample_executor
              [(js "action", VStr (js "b"))] (js "b")
              (default_config (js "b") (FnUser 1)) FnAlwaysTrue (VBool true)
              sample_heap) as [_ Hresult].
  - vm_compute. reflexivity.
  - discriminate.
  - vm_compute. reflexivity.
  - vm_compute. reflexivity.
  - reflexivity.
  - reflexivity.
  - reflexivity.
  - rewrite (Hresult (VObj [])); [reflexivity|].
    right. split; [reflexivity|]. split; [discriminate|reflexivity].
Defined.

(** C8 (as stated) fails on an action whose validator refuses the
    empty mapping: the action [guarded] is registered with the handler
    1, and [execute({action: 'guarded'})] rejects after the call of the
    validator, without a call of the handler. *)
Lemma execute_validator_gate :
  has sample_executor (js "guarded") sample_heap = true
  /\ cfg_handler <$> map_get (js "guarded")
                       (map_at (registry sample_executor) sample_heap)
     = Some (FnUser 1)
  /\ execute call_sample sample_executor
       (VObj [(js "action", VStr (js "guarded"))]) sample_heap
     = (Settled (Abrupt (InvalidParameters (VStr (js "guarded")))),
        [Called (FnUser 5) (VObj [])]).
Proof. vm_compute. repeat split; reflexivity. Qed.

Lemma handler_failure_isolated_witness :
  fst (execute call_sample sample_executor
         (VObj [(js "action", VStr (js "a"))]) sample_heap)
  = Settled (Normal (failure_envelope (VStr (js "a"))
                       (VStr (js "Action failed"))))
  /\ fst (execute call_sample sample_executor
            (VObj [(js "action", VStr (js "late"))]) sample_heap)
     = Settled (Normal (failure_envelope (VStr (js "late"))
                          (VStr (js "boom")))).
Proof.
  split.
  - destruct (handler_failure_isolated call_sample sample_executor
                (VObj [(js "action", VStr (js "a"))]) sample_heap) as [H _].
    destruct (H [(js "action", VStr (js "a"))] (js "a") config_a FnAlwaysTrue
                (VBool true) (VError (js "Action failed")))
      as (message & Hm & Hr).
    + reflexivity.
    + vm_compute. reflexivity.
    + discriminate.
    + vm_compute. reflexivity.
    + reflexivity.
    + reflexivity.
    + reflexivity.
    + left. reflexivity.
    + reflexivity.
    + vm_compute in Hm. injection Hm as <-. exact Hr.
  - destruct (handler_failure_isolated call_sample sample_executor
                (VObj [(js "action", VStr (js "late"))]) sample_heap) as [H _].
    destruct (H [(js "action", VStr (js "late"))] (js "late")
                (default_config (js "late") (FnUser 3)) FnAlwaysTrue
                (VBool true) (VError (js "boom")))
      as (message & Hm & Hr).
    + reflexivity.
    + vm_compute. reflexivity.
    + discriminate.
    + vm_compute. reflexivity.
    + reflexivity.
    + reflexivity.
    + reflexivity.
    + right. reflexivity.
    + reflexivity.
    + vm_compute in Hm. injection Hm as <-. exact Hr.
Defined.

(** C4 (as stated) fails twice.  On an action whose validator throws,
    the promise of [execute({action: 'strict'})] is rejected with the
    validator's exception, a hard failure that is none of the three
    contract failures.  And on an action whose handler throws [null],
    [execute({action: 'void'})] rejects instead of returning an
    envelope. *)
Lemma execute_rejects_outside_contract :
  (fst (execute call_sample sample_executor
          (VObj [(js "action", VStr (js "strict"))]) sample_heap)
   = Settled (Abrupt (Raised (VError (js "bad params"))))
   /\ ~ contract_failure (Raised (VError (js "bad params"))))
  /\ (fails_with call_sample (FnUser 6) (VObj []) VNull
      /\ cfg_handler <$> map_get (js "void")
                           (map_at (registry sample_executor) sample_heap)
         = Some (FnUser 6)
      /\ fst (execute call_sample sample_executor
                (VObj [(js "action", VStr (js "void"))]) sample_heap)
         = Settled (Abrupt (TypeErrorNullish (js "message")))).
Proof.
  split; [split|split; [|split]].
  - vm_compute. reflexivity.
  - intros [H|[[a H]|[a H]]]; discriminate.
  - left. reflexivity.
  - vm_compute. reflexivity.
  - vm_compute. reflexivity.
Qed.

(** A handler that throws [null]: reading [error.message] in the
    [catch] block raises a [TypeError], and [execute] rejects. *)
Example execute_handler_throws_null :
  execute call_sample sample_executor
    (VObj [(js "action", VStr (js "void"))]) sample_heap
  = (Settled (Abrupt (TypeErrorNullish (js "message"))),
     [Called FnAlwaysTrue (VObj []); Called (FnUser 6) (VObj [])]).
Proof. vm_compute. reflexivity. Qed.

(** A handler that returns an object with a [then]: [await] calls it.
    When it throws, the promise of [execute] is fulfilled with the
    failure envelope, after three calls; when it returns, the promise
    stays pending. *)
Example execute_awaits_thenable :
  execute call_thenable sample_executor
    (VObj [(js "action", VStr (js "thenable"))]) thenable_heap
  = (Settled (Normal (failure_envelope (VStr (js "thenable"))
                        (VStr (js "Action failed")))),
     [Called FnAlwaysTrue (VObj []); Called (FnUser 7) (VObj []);
      Called (FnUser 2) (VFun FnResolving)])
  /\ execute call_thenable sample_executor
       (VObj [(js "action", VStr (js "waiting"))]) thenable_heap
     = (Pending,
        [Called FnAlwaysTrue (VObj []); Called (FnUser 8) (VObj []);
         Called (FnUser 1) (VFun FnResolving)]).
Proof. split; vm_compute; reflexivity. Qed.

(** An action with a [toString] of its own: the conversion for the
    message calls it, and what it returns is what the message shows. *)
Example execute_unknown_action_converted :
  execute call_sample sample_executor
    (VObj [(js "action", VObj [(js "toString", VFun FnAlwaysTrue)])])
    sample_heap
  = (Settled (Abrupt (UnknownAction (VBool true))),
     [Called FnAlwaysTrue VUndefined]).
Proof. vm_compute. reflexivity. Qed.

(** ** More properties of the executor *)

Lemma map_get_snoc (name k : jsstring) (c : config) (es : entries) :
  map_get name (es ++ [(k, c)])
  = match map_get name es with
    | Some x => Some x
    | None => if decide (k = name) then Some c else None
    end.
Proof.
  induction es as [|[k' c'] rest IH]; simpl; [done|].
  by destruct (decide (k' = name)).
Qed.

Lemma map_get_delete_ne (name other : jsstring) (es : entries) :
  other <> name ->
  map_get other (map_delete name es) = map_get other es.
Proof.
  intros Hne. induction es as [|[k c] rest IH]; simpl; [done|].
  destruct (decide (k = name)) as [->|Hk]; simpl.
  - by destruct (decide (name = other)).
  - by rewrite IH.
Qed.

Lemma filter_all {A} (P : A -> Prop) `{!forall x, Decision (P x)} (l : list A) :
  Forall P l -> filter P l = l.
Proof.
  induction 1 as [|x l Hx Hl IH]; [done|].
  rewrite filter_cons_True by done. by rewrite IH.
Qed.

Lemma map_delete_filter (name : jsstring) (es : list (jsstring * config)) :
  NoDup es.*1 ->
  filter (fun e => e.1 <> name) es = map_delete name es.
Proof.
  induction es as [|[k c] rest IH]; simpl; [done|].
  intros [Hk Hnd]%NoDup_cons.
  destruct (decide (k = name)) as [->|Hne].
  - rewrite filter_cons_False by (simpl; tauto).
    apply filter_all, Forall_forall.
    intros [k' c'] Hin. simpl. intros ->. apply Hk.
    apply list_elem_of_fmap. by exists (name, c').
  - rewrite filter_cons_True by done. by rewrite IH.
Qed.

Lemma map_delete_snoc_absent (name : jsstring) (c : config) (es : entries) :
  map_has name es = false -> map_delete name (es ++ [(name, c)]) = es.
Proof.
  unfold map_has. induction es as [|[k c'] rest IH]; simpl.
  - intros _. by destruct (decide (name = name)).
  - destruct (decide (k = name)); [done|]. intros H. by rewrite IH.
Qed.

Lemma map_has_elem (name : jsstring) (es : entries) :
  map_has name es = true <-> name ∈ es.*1.
Proof.
  unfold map_has. induction es as [|[k c] rest IH]; simpl.
  - split; [done|]. intros H. by apply elem_of_nil in H.
  - destruct (decide (k = name)) as [->|Hne].
    + split; [intros _; by left|done].
    + rewrite IH. split; [by right|].
      intros [?|?]%elem_of_cons; [congruence|done].
Qed.

(** Every call keeps the registry a map with unique names and leaves
    the rest of the heap alone. *)
Lemma run_call_wf (this : executor) (c : registry_call) (h : gmap loc hobj)
    (es : entries) :
  h !! registry this = Some (HMap es) -> NoDup es.*1 ->
  exists es',
    run_call this c h !! registry this = Some (HMap es') /\ NoDup es'.*1.
Proof.
  intros Hreg Hnd. destruct c as [name handler metadata|name|]; simpl.
  - destruct (register this name handler metadata h) as [[this'|e] h'] eqn:E.
    + pose proof (register_keeps_names_unique _ _ _ _ _ _ _ _ Hreg Hnd E) as Hu.
      apply register_succeeds in E as (-> & _ & f & c & _ & _ & ->).
      simpl in *. eexists. split; [apply lookup_insert_eq|].
      by rewrite (map_at_lookup _ _ _ (lookup_insert_eq _ _ _)) in Hu.
    + assert (h' = h) as ->; [|by exists es].
      revert E. unfold register. destruct handler; try by intros [= _ <-].
      destruct (map_has _ _); [by intros [= _ <-]|].
      destruct (make_config _ _ _); [discriminate|by intros [= _ <-]].
  - exists (map_delete name es). split.
    + rewrite (map_at_lookup _ _ _ Hreg). apply lookup_insert_eq.
    + rewrite <- (map_delete_filter _ _ Hnd).
      refine (sublist_NoDup _ _ Hnd _).
      apply fmap_sublist. apply sublist_filter.
  - exists []. split; [apply lookup_insert_eq|constructor].
Qed.

Lemma run_calls_wf (this : executor) (cs : list registry_call)
    (h : gmap loc hobj) (es : entries) :
  h !! registry this = Some (HMap es) -> NoDup es.*1 ->
  exists es',
    run_calls this cs h !! registry this = Some (HMap es') /\ NoDup es'.*1.
Proof.
  revert h es. induction cs as [|c cs IH]; intros h es Hreg Hnd; simpl.
  - by exists es.
  - destruct (run_call_wf this c h es Hreg Hnd) as (es1 & Hreg1 & Hnd1).
    by apply (IH _ es1).
Qed.

(** The states reached from the constructor. *)
Lemma reached_wf (h0 : gmap loc hobj) (cs : list registry_call) :
  exists es,
    run_calls (new_executor h0).1 cs (new_executor h0).2
      !! registry (new_executor h0).1 = Some (HMap es)
    /\ NoDup es.*1.
Proof.
  destruct (new_executor h0) as [this h1] eqn:E.
  apply new_executor_spec in E as [Hreg _]. simpl.
  apply (run_calls_wf this cs h1 [] Hreg). constructor.
Qed.

(** *** Registering, looking up, removing *)

(** X1.  After a call of [register] that returns, the name is
    registered ([has] is true), the entry stored under it holds the
    handler that was given, the registry has one entry more, and every
    other name has the entry it had. *)
Theorem register_then_lookup (this this' : executor) (name : jsstring)
    (handler metadata : value) (h h' : gmap loc hobj) :
  register this name handler metadata h = (Normal this', h') ->
  this' = this
  /\ has this name h = false
  /\ has this name h' = true
  /\ (exists c,
        map_get name (map_at (registry this) h') = Some c
        /\ handler = VFun (cfg_handler c)
        /\ cfg_name c = name)
  /\ size this h' = S (size this h)
  /\ forall other,
       other <> name ->
       map_get other (map_at (registry this) h')
       = map_get other (map_at (registry this) h).
Proof.
  intros E. pose proof E as E'.
  apply register_succeeds in E' as (-> & Hnew & f & c & -> & Hc & ->).
  apply make_config_supplied in Hc.
  unfold has, size, map_has in *.
  rewrite (map_at_lookup _ _ _ (lookup_insert_eq _ _ _)).
  rewrite map_get_snoc.
  destruct (map_get name (map_at (registry this) h)) eqn:Eg; [discriminate|].
  destruct (decide (name = name)); [|done].
  repeat split; try done.
  - exists c. by rewrite Hc.
  - rewrite length_app. simpl. lia.
  - intros other Hne. rewrite map_get_snoc.
    destruct (map_get other (map_at (registry this) h)); [done|].
    by destruct (decide (name = other)).
Qed.

Lemma register_then_lookup_witness :
  has sample_executor (js "fresh")
    (snd (register sample_executor (js "fresh") (VFun (FnUser 1)) VUndefined
            sample_heap))
  = true.
Proof.
  destruct (register_then_lookup sample_executor sample_executor (js "fresh")
              (VFun (FnUser 1)) VUndefined sample_heap
              (snd (register sample_executor (js "fresh") (VFun (FnUser 1))
                      VUndefined sample_heap)))
    as (_ & _ & H & _).
  - vm_compute. reflexivity.
  - exact H.
Defined.

(** X2.  In every state reached from [new ActionExecutor()] by calls of
    [register], [unregister] and [clear], whatever they were given and
    whether they returned or threw, no name occurs twice in the
    registry, [has] tells exactly the names in it, and [list()] and
    [getAvailableActions()] return as many records as [size()] says. *)
Theorem registry_names_unique (h0 : gmap loc hobj) (cs : list registry_call) :
  NoDup (map_at (registry (new_executor h0).1)
           (run_calls (new_executor h0).1 cs (new_executor h0).2)).*1
  /\ (forall name,
        has (new_executor h0).1 name
          (run_calls (new_executor h0).1 cs (new_executor h0).2) = true
        <-> name ∈ (map_at (registry (new_executor h0).1)
                     (run_calls (new_executor h0).1 cs (new_executor h0).2)).*1)
  /\ length (array_at
               (list_actions (new_executor h0).1
                  (run_calls (new_executor h0).1 cs (new_executor h0).2)).1
               (list_actions (new_executor h0).1
                  (run_calls (new_executor h0).1 cs (new_executor h0).2)).2)
     = size (new_executor h0).1
         (run_calls (new_executor h0).1 cs (new_executor h0).2)
  /\ length (array_at
               (getAvailableActions (new_executor h0).1
                  (run_calls (new_executor h0).1 cs (new_executor h0).2)).1
               (getAvailableActions (new_executor h0).1
                  (run_calls (new_executor h0).1 cs (new_executor h0).2)).2)
     = size (new_executor h0).1
         (run_calls (new_executor h0).1 cs (new_executor h0).2).
Proof.
  destruct (reached_wf h0 cs) as (es & Hreg & Hnd).
  set (this := (new_executor h0).1) in *.
  set (h := run_calls this cs (new_executor h0).2) in *.
  unfold has, size. rewrite (map_at_lookup _ _ _ Hreg).
  split; [done|]. split; [intros name; apply map_has_elem|].
  unfold list_actions, getAvailableActions.
  destruct (collect_spec list_record this h es Hreg) as (l1 & -> & _).
  destruct (collect_spec available_record this h es Hreg) as (l2 & -> & _).
  simpl. rewrite !(array_at_lookup _ _ _ (lookup_insert_eq _ _ _)).
  by rewrite !length_fmap.
Qed.

(** X3.  In every such state, [unregister(name)] returns whether the
    name was registered; afterwards the name is not registered, the
    other entries are the ones there were, in the same order, and this
    is what [list()] then shows. *)
Theorem unregister_removes (h0 : gmap loc hobj) (cs : list registry_call)
    (name : jsstring) :
  (unregister (new_executor h0).1 name
     (run_calls (new_executor h0).1 cs (new_executor h0).2)).1
  = has (new_executor h0).1 name
      (run_calls (new_executor h0).1 cs (new_executor h0).2)
  /\ has (new_executor h0).1 name
       (unregister (new_executor h0).1 name
          (run_calls (new_executor h0).1 cs (new_executor h0).2)).2
     = false
  /\ filter (fun e => e.1 <> name)
       (map_at (registry (new_executor h0).1)
          (run_calls (new_executor h0).1 cs (new_executor h0).2))
     = map_at (registry (new_executor h0).1)
         (unregister (new_executor h0).1 name
            (run_calls (new_executor h0).1 cs (new_executor h0).2)).2
  /\ list_record
       <$> filter (fun e => e.1 <> name)
             (map_at (registry (new_executor h0).1)
                (run_calls (new_executor h0).1 cs (new_executor h0).2))
     = array_at
         (list_actions (new_executor h0).1
            (unregister (new_executor h0).1 name
               (run_calls (new_executor h0).1 cs (new_executor h0).2)).2).1
         (list_actions (new_executor h0).1
            (unregister (new_executor h0).1 name
               (run_calls (new_executor h0).1 cs (new_executor h0).2)).2).2.
Proof.
  destruct (reached_wf h0 cs) as (es & Hreg & Hnd).
  set (this := (new_executor h0).1) in *.
  set (h := run_calls this cs (new_executor h0).2) in *.
  assert (Hafter : (unregister this name h).2 !! registry this
                   = Some (HMap (map_delete name es))).
  { unfold unregister. cbn [snd]. rewrite (map_at_lookup _ _ _ Hreg).
    apply lookup_insert_eq. }
  split; [done|]. split.
  - unfold has. rewrite (map_at_lookup _ _ _ Hafter).
    by apply map_delete_absent.
  - rewrite (map_at_lookup _ _ _ Hafter), (map_at_lookup _ _ _ Hreg).
    rewrite (map_delete_filter _ _ Hnd). split; [done|].
    unfold list_actions.
    destruct (collect_spec list_record this _ _ Hafter) as (l & -> & _).
    simpl. by rewrite (array_at_lookup _ _ _ (lookup_insert_eq _ _ _)).
Qed.

(** X4.  Registering a name and then unregistering it gives back the
    registry there was before. *)
Theorem register_unregister_round_trip (this this' : executor)
    (name : jsstring) (handler metadata : value) (h h' : gmap loc hobj) :
  register this name handler metadata h = (Normal this', h') ->
  (unregister this' name h').1 = true
  /\ map_at (registry this') (unregister this' name h').2
     = map_at (registry this) h.
Proof.
  intros E.
  apply register_succeeds in E as (-> & Hnew & f & c & -> & Hc & ->).
  unfold unregister, has in *. simpl.
  rewrite !(map_at_lookup _ _ _ (lookup_insert_eq _ _ _)).
  split.
  - unfold map_has. rewrite map_get_snoc.
    unfold map_has in Hnew.
    destruct (map_get name (map_at (registry this) h)); [discriminate|].
    by destruct (decide (name = name)).
  - by apply map_delete_snoc_absent.
Qed.

Lemma register_unregister_round_trip_witness :
  map_at (registry sample_executor)
    (unregister sample_executor (js "fresh")
       (snd (register sample_executor (js "fresh") (VFun (FnUser 1))
               VUndefined sample_heap))).2
  = map_at (registry sample_executor) sample_heap.
Proof.
  apply (register_unregister_round_trip sample_executor sample_executor
           (js "fresh") (VFun (FnUser 1)) VUndefined sample_heap).
  vm_compute. reflexivity.
Defined.

(** X5.  After [clear()] nothing is registered: [size()] is 0, [has]
    is false for every name, both listings are empty, and every
    decision that names an action by a plain value (a string, or
    another value that the engine converts to a string by itself) is
    answered by [Unknown action] without any call. *)
Theorem clear_empties (this : executor) (h : gmap loc hobj) :
  size this (clear this h) = 0%nat
  /\ (forall name, has this name (clear this h) = false)
  /\ array_at (list_actions this (clear this h)).1
       (list_actions this (clear this h)).2 = []
  /\ array_at (getAvailableActions this (clear this h)).1
       (getAvailableActions this (clear this h)).2 = []
  /\ forall call props action,
       assoc (js "action") props = Some action ->
       truthy action = true ->
       plain action = true ->
       execute call this (VObj props) (clear this h)
       = (Settled (Abrupt (UnknownAction action)), []).
Proof.
  assert (Hreg : clear this h !! registry this = Some (HMap []))
    by apply lookup_insert_eq.
  split; [apply clear_spec|]. split.
  - intros name. unfold has. by rewrite (map_at_lookup _ _ _ Hreg).
  - unfold list_actions, getAvailableActions.
    destruct (collect_spec list_record this _ _ Hreg) as (l1 & -> & _).
    destruct (collect_spec available_record this _ _ Hreg) as (l2 & -> & _).
    simpl. rewrite !(array_at_lookup _ _ _ (lookup_insert_eq _ _ _)).
    split; [done|]. split; [done|].
    intros call props action Ha Ht Hplain.
    rewrite (execute_lookup call this props action _ Ha Ht).
    rewrite (map_at_lookup _ _ _ Hreg).
    assert (registry_get action [] = None) as -> by (by destruct action).
    unfold unknown_action. by rewrite (plain_to_primitive call action Hplain).
Qed.

(** *** Dispatching a decision *)

Lemma map_get_with_confirmation (flag : value) (name : jsstring)
    (es : list (jsstring * config)) :
  map_get name (with_confirmation flag <$> es)
  = (fun c => (with_confirmation flag (name, c)).2) <$> map_get name es.
Proof.
  induction es as [|[k c] rest IH]; [done|].
  rewrite fmap_cons. simpl. by destruct (decide (k = name)).
Qed.

Lemma filter_is_call_app (t1 t2 : list event) :
  filter (fun e => is_call e = true) (t1 ++ t2)
  = filter (fun e => is_call e = true) t1
    ++ filter (fun e => is_call e = true) t2.
Proof. apply filter_app. Qed.

Section DispatchMore.

Variable call : N -> value -> outcome.

(** The [try] statement for a handler that succeeds. *)
Lemma run_handler_succeeds (action : value) (handler : fn)
    (params result : value) :
  succeeds_with call handler params result ->
  run_handler call action handler params
  = (Settled (Normal (success_envelope action result)), []).
Proof.
  unfold run_handler. intros [-> | (-> & Hnp & Hthen)]; [done|].
  rewrite Hthen. destruct result as [| | | | | | | | b p |]; try reflexivity.
  by destruct (Hnp b p).
Qed.


(** X6.  [execute] rejects with [Invalid decision: missing action]
    exactly when the decision is not an object with a truthy [action]
    (so also for a string, a number, an array or a function, whose
    [action] is [undefined]); it then calls nothing and writes nothing
    to the console. *)
Theorem execute_invalid_decision_iff (this : executor) (decision : value)
    (h : gmap loc hobj) :
  (fst (execute call this decision h) = Settled (Abrupt InvalidDecision)
   <-> names_action decision = false)
  /\ (names_action decision = false ->
      snd (execute call this decision h) = []).
Proof.
  destruct (names_action decision) eqn:En.
  - destruct decision; try discriminate. simpl in En.
    destruct (assoc (js "action") props) as [name|] eqn:Ea; [|discriminate].
    simpl in En.
    rewrite (execute_lookup call this props name h Ea En).
    split; [|discriminate]. split; [|discriminate].
    destruct (registry_get name (map_at (registry this) h)).
    + cbv zeta. destruct (cfg_validate c); try discriminate.
      destruct (call_fn call f _); [|discriminate].
      destruct (negb (truthy v)); [discriminate|].
      destruct (run_handler call name (cfg_handler c) _) as [r t3] eqn:Hrun.
      cbn [fst]. intros ->.
      assert (InvalidDecision = TypeErrorNullish (js "message")) as H
        by (eapply run_handler_rejects; by rewrite Hrun).
      discriminate H.
    + unfold unknown_action.
      destruct (to_primitive call name) as [[shown|x] t] eqn:Hconv;
        [discriminate|].
      cbn [fst]. intros [= ->].
      destruct (to_primitive_throws call name InvalidDecision)
        as [H|[e H]]; [by rewrite Hconv|discriminate H|discriminate H].
  - by rewrite (execute_without_action call this decision h En).
Qed.

(** X7.  When the validator of the registered action returns a falsy
    value (whatever the parameters), [execute] rejects with
    [Invalid parameters for action], after the one call of the
    validator: the handler is not called and nothing is written to the
    console. *)
Theorem execute_validator_refuses (this : executor)
    (props : list (jsstring * value)) (name : jsstring) (c : config)
    (validate : fn) (ok : value) (h : gmap loc hobj) :
  assoc (js "action") props = Some (VStr name) ->
  name <> [] ->
  map_get name (map_at (registry this) h) = Some c ->
  cfg_validate c = VFun validate ->
  call_fn call validate
    (or_else (default VUndefined (assoc (js "parameters") props)) (VObj []))
  = Returns ok ->
  truthy ok = false ->
  execute call this (VObj props) h
  = (Settled (Abrupt (InvalidParameters (VStr name))),
     [Called validate
        (or_else (default VUndefined (assoc (js "parameters") props))
           (VObj []))]).
Proof.
  intros Ha Hne Hc Hv Hok Ht.
  rewrite (execute_lookup call this props (VStr name) h Ha);
    [|by destruct name].
  cbn [registry_get]. rewrite Hc. cbv zeta. by rewrite Hv, Hok, Ht.
Qed.

(** X8.  When the decision carries truthy [parameters] that the
    validator accepts, the validator and then the handler are each
    called with exactly that value, before any other call; when the
    handler succeeds (it returns a promise that is fulfilled, or a
    value that is neither a promise nor an object with a callable
    [then]) there is no other call, and its result is returned in
    [{success: true, action, result}]. *)
Theorem execute_passes_parameters (this : executor)
    (props : list (jsstring * value)) (name : jsstring) (c : config)
    (validate : fn) (parameters ok : value) (h : gmap loc hobj) :
  assoc (js "action") props = Some (VStr name) ->
  name <> [] ->
  assoc (js "parameters") props = Some parameters ->
  truthy parameters = true ->
  map_get name (map_at (registry this) h) = Some c ->
  cfg_validate c = VFun validate ->
  call_fn call validate parameters = Returns ok ->
  truthy ok = true ->
  (exists rest,
     filter (fun e => is_call e = true)
       (snd (execute call this (VObj props) h))
     = [Called validate parameters; Called (cfg_handler c) parameters]
       ++ rest)
  /\ forall result,
       succeeds_with call (cfg_handler c) parameters result ->
       fst (execute call this (VObj props) h)
       = Settled (Normal (success_envelope (VStr name) result))
       /\ filter (fun e => is_call e = true)
            (snd (execute call this (VObj props) h))
          = [Called validate parameters; Called (cfg_handler c) parameters].
Proof.
  intros Ha Hne Hp Htp Hc Hv Hok Ht.
  rewrite (execute_lookup call this props (VStr name) h Ha);
    [|by destruct name].
  cbn [registry_get]. rewrite Hc, Hp. cbn [from_option id].
  unfold or_else. rewrite Htp. cbv zeta. rewrite Hv, Hok, Ht. cbn [negb].
  split.
  - destruct (run_handler call (VStr name) (cfg_handler c) parameters)
      as [r t3].
    exists (filter (fun e => is_call e = true) t3). cbn [snd].
    rewrite !filter_is_call_app.
    by destruct (truthy (cfg_requiresConfirmation c)).
  - intros result Hs.
    rewrite (run_handler_succeeds (VStr name) _ _ _ Hs). cbn [fst snd].
    split; [done|].
    by destruct (truthy (cfg_requiresConfirmation c)).
Qed.

(** X9.  [requiresConfirmation] never blocks an action and never
    changes what is called: with another value of that property on the
    registered entries, [execute] settles in the same way after the
    same calls with the same arguments.  Only the warning on the
    console depends on it. *)
Theorem confirmation_never_blocks (this : executor) (decision flag : value)
    (h : gmap loc hobj) :
  fst (execute call this decision
         (<[registry this :=
              HMap (with_confirmation flag <$> map_at (registry this) h)]> h))
  = fst (execute call this decision h)
  /\ filter (fun e => is_call e = true)
       (snd (execute call this decision
               (<[registry this :=
                    HMap (with_confirmation flag
                            <$> map_at (registry this) h)]> h)))
     = filter (fun e => is_call e = true)
         (snd (execute call this decision h)).
Proof.
  destruct (names_action decision) eqn:En.
  - destruct decision; try discriminate. simpl in En.
    destruct (assoc (js "action") props) as [name|] eqn:Ea; [|discriminate].
    simpl in En.
    rewrite !(execute_lookup call this props name _ Ea En).
    rewrite (map_at_lookup _ _ _ (lookup_insert_eq _ _ _)).
    destruct name; try done. cbn [registry_get].
    rewrite map_get_with_confirmation.
    destruct (map_get s (map_at (registry this) h)) as [c|]; [|done].
    cbn [fmap option_fmap option_map with_confirmation snd fst
         cfg_validate cfg_handler cfg_requiresConfirmation].
    cbv zeta. destruct (cfg_validate c); try done.
    destruct (call_fn call f _); [|done].
    destruct (negb (truthy v)); [done|].
    destruct (run_handler call (VStr s) (cfg_handler c) _) as [r t3].
    cbn [fst snd]. split; [done|].
    rewrite !filter_is_call_app.
    by destruct (truthy flag), (truthy (cfg_requiresConfirmation c)).
  - by rewrite !(execute_without_action call this decision _ En).
Qed.

(** X10.  When the handler of the registered action fails with [null]
    or [undefined] (thrown, or as the reason of a rejected promise),
    [execute] does not return an envelope: reading [error.message]
    raises a [TypeError] and the promise is rejected with it, after the
    call of the handler. *)
Theorem handler_nullish_failure_rejects (this : executor)
    (props : list (jsstring * value)) (name : jsstring) (c : config)
    (validate : fn) (ok error : value) (h : gmap loc hobj) :
  assoc (js "action") props = Some (VStr name) ->
  name <> [] ->
  map_get name (map_at (registry this) h) = Some c ->
  cfg_validate c = VFun validate ->
  call_fn call validate
    (or_else (default VUndefined (assoc (js "parameters") props)) (VObj []))
  = Returns ok ->
  truthy ok = true ->
  fails_with call (cfg_handler c)
    (or_else (default VUndefined (assoc (js "parameters") props)) (VObj []))
    error ->
  nullish error = true ->
  fst (execute call this (VObj props) h)
  = Settled (Abrupt (TypeErrorNullish (js "message")))
  /\ last (snd (execute call this (VObj props) h))
     = Some (Called (cfg_handler c)
               (or_else (default VUndefined (assoc (js "parameters") props))
                  (VObj []))).
Proof.
  intros Ha Hne Hc Hv Hok Ht Hf Hn.
  rewrite (execute_lookup call this props (VStr name) h Ha);
    [|by destruct name].
  cbn [registry_get]. rewrite Hc. cbv zeta. rewrite Hv, Hok, Ht.
  cbn [negb].
  assert (Hrun : run_handler call (VStr name) (cfg_handler c)
                   (or_else
                      (default VUndefined (assoc (js "parameters") props))
                      (VObj []))
                 = (Settled (Abrupt (TypeErrorNullish (js "message"))), [])).
  { unfold run_handler, on_handler_failure.
    destruct Hf as [->| ->]; by destruct error. }
  rewrite Hrun, app_nil_r. cbn [fst snd]. split; [done|apply last_snoc].
Qed.


End DispatchMore.

Lemma execute_validator_refuses_witness :
  execute call_sample sample_executor
    (VObj [(js "action", VStr (js "guarded"));
           (js "parameters", VObj [(js "id", VStr (js "7"))])]) sample_heap
  = (Settled (Abrupt (InvalidParameters (VStr (js "guarded")))),
     [Called (FnUser 5) (VObj [(js "id", VStr (js "7"))])]).
Proof.
  apply (execute_validator_refuses call_sample sample_executor
           [(js "action", VStr (js "guarded"));
            (js "parameters", VObj [(js "id", VStr (js "7"))])]
           (js "guarded") config_guarded (FnUser 5) (VBool false)
           sample_heap).
  - reflexivity.
  - discriminate.
  - vm_compute. reflexivity.
  - reflexivity.
  - reflexivity.
  - reflexivity.
Defined.

Lemma execute_passes_parameters_witness :
  fst (execute call_sample sample_executor
         (VObj [(js "action", VStr (js "b"));
                (js "parameters", VObj [(js "id", VStr (js "7"))])])
         sample_heap)
  = Settled (Normal (success_envelope (VStr (js "b"))
                       (VObj [(js "id", VStr (js "7"))]))).
Proof.
  destruct (execute_passes_parameters call_sample sample_executor
              [(js "action", VStr (js "b"));
               (js "parameters", VObj [(js "id", VStr (js "7"))])]
              (js "b") (default_config (js "b") (FnUser 1)) FnAlwaysTrue
              (VObj [(js "id", VStr (js "7"))]) (VBool true) sample_heap)
    as [_ Hresult].
  - reflexivity.
  - discriminate.
  - reflexivity.
  - reflexivity.
  - vm_compute. reflexivity.
  - reflexivity.
  - reflexivity.
  - reflexivity.
  - apply Hresult. right. split; [reflexivity|].
    split; [discriminate|reflexivity].
Defined.

Lemma handler_nullish_failure_rejects_witness :
  fst (execute call_sample sample_executor
         (VObj [(js "action", VStr (js "void"))]) sample_heap)
  = Settled (Abrupt (TypeErrorNullish (js "message"))).
Proof.
  destruct (handler_nullish_failure_rejects call_sample sample_executor
              [(js "action", VStr (js "void"))] (js "void") config_void
              FnAlwaysTrue (VBool true) VNull sample_heap) as [H _].
  - reflexivity.
  - discriminate.
  - vm_compute. reflexivity.
  - reflexivity.
  - reflexivity.
  - reflexivity.
  - left. reflexivity.
  - reflexivity.
  - exact H.
Defined.


(** ** More properties of the parser *)

(** *** The cleaning of the response *)

Lemma re_fence_Some (s : jsstring) (k : nat) :
  re_fence s = Some k ->
  exists rest, s = fence ++ rest /\ k = (3 + span_spaces rest)%nat.
Proof.
  unfold re_fence, fence.
  destruct s as [|b1 [|b2 [|b3 rest]]]; try discriminate.
  destruct (_ && _ && _) eqn:E; [|discriminate].
  apply andb_prop in E as [E E3]. apply andb_prop in E as [E1 E2].
  apply N.eqb_eq in E1, E2, E3. subst. intros [= <-]. by exists rest.
Qed.

Lemma re_fence_fence (rest : jsstring) :
  re_fence (fence ++ rest) = Some (3 + span_spaces rest)%nat.
Proof. reflexivity. Qed.

Lemma re_fence_json_Some (s : jsstring) (k : nat) :
  re_fence_json s = Some k -> exists rest, s = fence ++ rest.
Proof.
  unfold re_fence_json, fence.
  destruct s as [|b1 [|b2 [|b3 [|j [|s' [|o [|n rest]]]]]]]; try discriminate.
  destruct (_ && _ && _ && _ && _ && _ && _) eqn:E; [|discriminate].
  repeat (apply andb_prop in E as [E ?]).
  repeat match goal with H : (_ =? _)%N = true |- _ =>
    apply N.eqb_eq in H end.
  subst. intros _. by eexists.
Qed.

(** Dropping the rest of a match is dropping that many code units. *)
Lemma replace_all_skip (re : matcher) (k : nat) (s : jsstring) :
  replace_all re k s = replace_all re O (drop k s).
Proof.
  revert k. induction s as [|c rest IH]; intros [|k]; try reflexivity.
  simpl. apply IH.
Qed.

(** A text in which the expression matches nowhere is left as it is. *)
Lemma replace_all_none (re : matcher) (s : jsstring) :
  (forall i, re (drop i s) = None) -> replace_all re O s = s.
Proof.
  induction s as [|c rest IH]; [done|]. intros H.
  pose proof (H O) as H0. change (re (c :: rest) = None) in H0.
  cbn [replace_all]. rewrite H0. f_equal. apply IH.
  intros i. apply (H (S i)).
Qed.

Lemma has_fence_at (s : jsstring) :
  has_fence s <-> exists i, re_fence (drop i s) <> None.
Proof.
  split.
  - intros (before & after & ->). exists (length before).
    rewrite drop_app_length. by rewrite re_fence_fence.
  - intros [i H]. destruct (re_fence (drop i s)) as [k|] eqn:E; [|done].
    apply re_fence_Some in E as (rest & E & _).
    exists (take i s), rest. by rewrite <- E, take_drop.
Qed.

Lemma replace_all_fence_cons (c : N) (rest : jsstring) :
  replace_all re_fence O (c :: rest)
  = match re_fence (c :: rest) with
    | Some k => replace_all re_fence O (drop (pred k) rest)
    | None => c :: replace_all re_fence O rest
    end.
Proof.
  cbn [replace_all]. destruct (re_fence (c :: rest)) as [k|] eqn:E; [|done].
  apply re_fence_Some in E as (r & _ & ->). apply replace_all_skip.
Qed.

(** Two backticks at the head of the result were at the head of the
    text. *)
Lemma replace_all_fence_head (s t : jsstring) :
  replace_all re_fence O s = ch_backtick :: ch_backtick :: t ->
  exists u, s = ch_backtick :: ch_backtick :: u.
Proof.
  destruct s as [|c1 [|c2 r]].
  - discriminate.
  - simpl. discriminate.
  - rewrite replace_all_fence_cons.
    destruct (re_fence (c1 :: c2 :: r)) as [k|] eqn:E.
    + apply re_fence_Some in E as (rest & [= -> -> _] & _). eauto.
    + rewrite replace_all_fence_cons.
      destruct (re_fence (c2 :: r)) as [k|] eqn:E2.
      * apply re_fence_Some in E2 as (rest & [= -> Hr] & _).
        subst r. intros [= -> _]. discriminate E.
      * intros [= -> ->]. eauto.
Qed.

Lemma replace_all_fence_free (n : nat) (s : jsstring) (i : nat) :
  (length s <= n)%nat -> re_fence (drop i (replace_all re_fence O s)) = None.
Proof.
  revert s i. induction n as [|n IH]; intros s i Hlen.
  - destruct s; [|simpl in Hlen; lia]. by destruct i.
  - destruct s as [|c rest]; [by destruct i|]. simpl in Hlen.
    rewrite replace_all_fence_cons.
    destruct (re_fence (c :: rest)) as [k|] eqn:E.
    + apply IH. rewrite length_drop. lia.
    + destruct i as [|i]; [|apply IH; lia].
      rewrite drop_0.
      destruct (re_fence (c :: replace_all re_fence O rest)) as [k|] eqn:E';
        [|done].
      apply re_fence_Some in E' as (r & [= -> Hr] & _).
      apply replace_all_fence_head in Hr as [u ->]. discriminate.
Qed.

Lemma trim_start_suffix (s : jsstring) :
  exists spaces, s = spaces ++ trim_start s.
Proof.
  induction s as [|c rest [spaces IH]]; [by exists []|].
  simpl. destruct (is_space c); [|by exists []].
  exists (c :: spaces). simpl. by rewrite <- IH.
Qed.

Lemma trim_start_head (s : jsstring) (c : N) :
  head (trim_start s) = Some c -> is_space c = false.
Proof.
  induction s as [|d rest IH]; [done|].
  simpl. destruct (is_space d) eqn:E; [done|]. by intros [= <-].
Qed.

Lemma trim_start_id (s : jsstring) :
  (forall c, head s = Some c -> is_space c = false) -> trim_start s = s.
Proof.
  destruct s as [|c rest]; [done|]. intros H. simpl.
  by rewrite (H c eq_refl).
Qed.

Lemma trim_infix (s : jsstring) :
  exists before after, s = before ++ trim s ++ after.
Proof.
  unfold trim.
  destruct (trim_start_suffix s) as [a Ha].
  destruct (trim_start_suffix (reverse (trim_start s))) as [b Hb].
  exists a, (reverse b).
  rewrite <- reverse_app, <- Hb, reverse_involutive. exact Ha.
Qed.

Lemma head_reverse (s : jsstring) : head (reverse s) = last s.
Proof.
  induction s as [|c rest IH] using rev_ind; [done|].
  by rewrite reverse_snoc, last_snoc.
Qed.

Lemma last_reverse (s : jsstring) : last (reverse s) = head s.
Proof. by rewrite <- head_reverse, reverse_involutive. Qed.

Lemma trim_trimmed (s : jsstring) : trimmed (trim s).
Proof.
  unfold trim, trimmed. split; intros c.
  - rewrite head_reverse.
    destruct (trim_start_suffix (reverse (trim_start s))) as [b Hb].
    intros Hl.
    assert (last (reverse (trim_start s)) = Some c) as H.
    { rewrite Hb.
      destruct (trim_start (reverse (trim_start s))) as [|d r] eqn:E using rev_ind;
        [done|].
      rewrite last_snoc in Hl. by rewrite app_assoc, last_snoc. }
    rewrite last_reverse in H. by apply trim_start_head in H.
  - rewrite last_reverse. apply trim_start_head.
Qed.

Lemma trim_id (s : jsstring) : trimmed s -> trim s = s.
Proof.
  intros [Hh Hl]. unfold trim.
  rewrite (trim_start_id s Hh).
  rewrite trim_start_id; [apply reverse_involutive|].
  intros c. rewrite head_reverse. apply Hl.
Qed.

(** X12.  The cleaning of a response ([replace] twice and [trim])
    leaves no code-fence marker in the text and no white space at
    either end, whatever the response; it changes nothing in a text
    that has neither, and so cleaning twice is cleaning once. *)
Theorem clean_output (s : jsstring) :
  ~ has_fence (clean s)
  /\ trimmed (clean s)
  /\ (~ has_fence s -> trimmed s -> clean s = s)
  /\ clean (clean s) = clean s.
Proof.
  assert (Hfree : ~ has_fence (clean s)).
  { intros (before & after & E). unfold clean in E.
    destruct (trim_infix
                (replace_all re_fence O (replace_all re_fence_json O s)))
      as (a & b & Ht).
    rewrite E in Ht.
    assert (has_fence (replace_all re_fence O (replace_all re_fence_json O s)))
      as Hf.
    { exists (a ++ before), (after ++ b). rewrite Ht.
      by rewrite <- !app_assoc. }
    apply has_fence_at in Hf as [i Hi]. apply Hi.
    by apply (replace_all_fence_free _ _ i (Nat.le_refl _)). }
  assert (Hfix : forall t, ~ has_fence t -> trimmed t -> clean t = t).
  { intros t Hn Ht. unfold clean.
    assert (Hnone : forall i, re_fence (drop i t) = None).
    { intros i. destruct (re_fence (drop i t)) eqn:E; [|done].
      exfalso. apply Hn, has_fence_at. exists i. by rewrite E. }
    rewrite (replace_all_none re_fence_json).
    - rewrite (replace_all_none re_fence _ Hnone). by apply trim_id.
    - intros i. destruct (re_fence_json (drop i t)) as [k|] eqn:E; [|done].
      apply re_fence_json_Some in E as [rest E].
      specialize (Hnone i). rewrite E in Hnone. discriminate. }
  split; [exact Hfree|]. split; [apply trim_trimmed|].
  split; [apply Hfix|]. apply Hfix; [exact Hfree|apply trim_trimmed].
Qed.

(** *** The texts parsed whole, and the console *)

(** X13.  A cleaned text that is wrapped in one pair of braces or of
    square brackets is parsed whole, whatever is between them (also
    when a shorter balanced text starts it), and so is a text with no
    opening bracket at all. *)
Theorem parseJSON_whole_text (JSON_read : jsstring -> option value)
    (debug : bool) (s : jsstring) :
  wrapped Brace (clean s) \/ wrapped Square (clean s)
  \/ ((ch_lbrace ∉ clean s) /\ (ch_lbracket ∉ clean s)) ->
  parseJSON JSON_read debug (VStr s)
  = caught (JSON_parse JSON_read (clean s)).
Proof.
  intros H. rewrite parseJSON_caught. f_equal.
  unfold parseJSON_try. cbn [typeof jstype_eqb].
  destruct (re_wrapped ch_lbrace ch_rbrace (clean s)) eqn:EB; [done|].
  destruct (re_wrapped ch_lbracket ch_rbracket (clean s)) eqn:ES; [done|].
  destruct H as [H|[H|[HB HS]]].
  - apply (re_wrapped_spec Brace) in H. cbn [opening closing] in H. congruence.
  - apply (re_wrapped_spec Square) in H. cbn [opening closing] in H.
    congruence.
  - by rewrite (indexOf_absent _ _ HB), (indexOf_absent _ _ HS).
Qed.

Lemma parseJSON_whole_text_witness :
  parseJSON JSON_read_sample true (VStr (jsq "{'a':1} and {'b':2}"))
  = Normal parse_failure
  /\ parseJSON JSON_read_sample true (VStr (jsq "```json [1] ```"))
     = Normal (VArr [VNum 1]).
Proof.
  split.
  - rewrite (parseJSON_whole_text JSON_read_sample true
               (jsq "{'a':1} and {'b':2}")); [reflexivity|].
    left. apply (re_wrapped_spec Brace). vm_compute. reflexivity.
  - rewrite (parseJSON_whole_text JSON_read_sample true
               (jsq "```json [1] ```")); [reflexivity|].
    right. left. apply (re_wrapped_spec Square). vm_compute. reflexivity.
Defined.

(** X14.  [this.debug] changes nothing in what [parseJSON] returns.
    Without it nothing is written to the console.  With it, a response
    whose parsing succeeds writes nothing, and one whose parsing fails
    writes two lines: the error, and the raw response as it was
    received. *)
Theorem parseJSON_console (JSON_read : jsstring -> option value)
    (debug : bool) (response : value) :
  fst (parseJSON_run JSON_read debug response)
  = fst (parseJSON_run JSON_read false response)
  /\ snd (parseJSON_run JSON_read false response) = []
  /\ snd (parseJSON_run JSON_read true response)
     = match parseJSON_try JSON_read response with
       | Normal _ => []
       | Abrupt e => [LogParseError e; LogRawResponse response]
       end
  /\ forall e,
       parseJSON_try JSON_read response = Abrupt e ->
       fst (parseJSON_run JSON_read debug response) = Normal parse_failure.
Proof.
  unfold parseJSON_run.
  destruct (parseJSON_try JSON_read response) as [v|e] eqn:E.
  - repeat split; by destruct debug.
  - apply parseJSON_try_throws in E as [-> | [-> | ->]];
      repeat split; by destruct debug.
Qed.

(** ** Properties of telemetry *)

Lemma obj_set_fresh (k : jsstring) (v : value)
    (props : list (jsstring * value)) :
  k ∉ props.*1 -> obj_set k v props = props ++ [(k, v)].
Proof.
  induction props as [|[k' v'] rest IH]; [done|].
  rewrite fmap_cons, not_elem_of_cons. simpl. intros [Hne Hrest].
  destruct (decide (k' = k)); [congruence|]. by rewrite IH.
Qed.

Lemma assoc_obj_set (k k' : jsstring) (v : value)
    (props : list (jsstring * value)) :
  assoc k (obj_set k' v props)
  = if decide (k' = k) then Some v else assoc k props.
Proof.
  induction props as [|[k0 v0] rest IH]; simpl.
  - by destruct (decide (k' = k)).
  - destruct (decide (k0 = k')) as [->|Hne]; simpl.
    + by destruct (decide (k' = k)).
    + destruct (decide (k0 = k)) as [->|Hne'].
      * by destruct (decide (k' = k)); [congruence|].
      * exact IH.
Qed.

Lemma assoc_obj_delete (k k' : jsstring) (props : list (jsstring * value)) :
  k <> k' -> assoc k (obj_delete k' props) = assoc k props.
Proof.
  intros Hne. unfold obj_delete.
  induction props as [|[k0 v0] rest IH]; [done|].
  destruct (decide (k0 = k')) as [->|Hk].
  - rewrite filter_cons_False by (simpl; tauto). simpl.
    destruct (decide (k' = k)); [congruence|]. exact IH.
  - rewrite filter_cons_True by done. simpl.
    destruct (decide (k0 = k)); [done|]. exact IH.
Qed.

Lemma assoc_deleted (k : jsstring) (ks : list jsstring)
    (props : list (jsstring * value)) :
  k ∉ ks ->
  assoc k (foldl (fun safe k => obj_delete k safe) props ks) = assoc k props.
Proof.
  revert props. induction ks as [|k' ks IH]; intros props; [done|].
  rewrite not_elem_of_cons. intros [Hne Hks]. simpl.
  rewrite (IH _ Hks). by apply assoc_obj_delete.
Qed.

Lemma assoc_None (k : jsstring) (props : list (jsstring * value)) :
  k ∉ props.*1 -> assoc k props = None.
Proof.
  induction props as [|[k' v'] rest IH]; [done|].
  rewrite fmap_cons, not_elem_of_cons. simpl. intros [Hne Hrest].
  destruct (decide (k' = k)); [congruence|]. by apply IH.
Qed.

Lemma omap_kept_keys (data : list (jsstring * value)) (ks : list jsstring)
    (k : jsstring) :
  k ∈ (omap (kept data) ks).*1 -> k ∈ ks.
Proof.
  rewrite list_elem_of_fmap. intros ([k' v] & -> & Hin).
  apply list_elem_of_omap in Hin as (k0 & Hk0 & Hkept).
  unfold kept in Hkept. destruct (assoc k0 data) as [v0|]; [|done].
  destruct (is_defined v0); [|done]. by injection Hkept as -> _.
Qed.

(** The loop over the allowed keys collects what is kept of each, in
    their order. *)
Lemma collect_kept (safe : list (jsstring * value)) (ks : list jsstring)
    (acc : list (jsstring * value)) :
  NoDup ks -> (forall k, k ∈ ks -> k ∉ acc.*1) ->
  foldl (fun sanitized key =>
           if is_defined (default VUndefined (assoc key safe))
           then obj_set key (default VUndefined (assoc key safe)) sanitized
           else sanitized)
        acc ks
  = acc ++ omap (kept safe) ks.
Proof.
  revert acc. induction ks as [|k ks IH]; intros acc Hnd Hfresh.
  - simpl. by rewrite app_nil_r.
  - apply NoDup_cons in Hnd as [Hk Hnd].
    assert (Hrest : forall acc',
               (forall k', k' ∈ ks -> k' ∉ acc'.*1) ->
               foldl (fun sanitized key =>
                        if is_defined (default VUndefined (assoc key safe))
                        then obj_set key (default VUndefined (assoc key safe))
                               sanitized
                        else sanitized) acc' ks
               = acc' ++ omap (kept safe) ks)
      by (intros acc' H; by apply IH).
    assert (Hacc : forall k', k' ∈ ks -> k' ∉ acc.*1)
      by (intros k' Hk'; apply Hfresh; by right).
    change (foldl ?f acc (k :: ks)) with (foldl f (f acc k) ks).
    change (omap (kept safe) (k :: ks))
      with (match kept safe k with
            | Some y => y :: omap (kept safe) ks
            | None => omap (kept safe) ks
            end).
    cbv beta. unfold kept at 1.
    destruct (assoc k safe) as [v|] eqn:Ea; cbn [from_option id is_defined].
    + destruct (is_defined v) eqn:Ed; [|by apply Hrest].
      rewrite obj_set_fresh by (apply Hfresh; left).
      rewrite Hrest; [by rewrite <- app_assoc|].
      intros k' Hk'. rewrite fmap_app, elem_of_app. intros [Hin|Hin].
      * revert Hin. by apply Hacc.
      * simpl in Hin. apply list_elem_of_singleton in Hin. congruence.
    + by apply Hrest.
Qed.

Lemma allowed_NoDup : NoDup allowed.
Proof. apply (bool_decide_unpack _). vm_compute. reflexivity. Qed.

Lemma allowed_not_deleted (k : jsstring) : k ∈ allowed -> k ∉ deleted.
Proof.
  assert (H : Forall (fun k => k ∉ deleted) allowed)
    by (apply (bool_decide_unpack _); vm_compute; reflexivity).
  rewrite Forall_forall in H. apply H.
Qed.

Lemma omap_ext_elem {A B} (f g : A -> option B) (l : list A) :
  (forall x, x ∈ l -> f x = g x) -> omap f l = omap g l.
Proof.
  induction l as [|x l IH]; [done|]. intros H. cbn [omap list_omap].
  rewrite (H x) by left. rewrite IH; [done|]. intros y Hy. apply H. by right.
Qed.

Lemma sanitizeData_kept (data : list (jsstring * value)) :
  sanitizeData data = omap (kept data) allowed.
Proof.
  unfold sanitizeData. cbv zeta.
  rewrite collect_kept; [|apply allowed_NoDup|intros k _; apply not_elem_of_nil].
  cbn [app]. apply omap_ext_elem. intros k Hk. unfold kept.
  by rewrite (assoc_deleted k deleted data (allowed_not_deleted k Hk)).
Qed.

Lemma assoc_omap_kept (data : list (jsstring * value)) (ks : list jsstring)
    (k : jsstring) :
  assoc k (omap (kept data) ks)
  = if decide (k ∈ ks) then snd <$> kept data k else None.
Proof.
  induction ks as [|k' ks IH].
  - simpl. by destruct (decide (k ∈ [])) as [H%elem_of_nil|].
  - cbn [omap list_omap].
    destruct (decide (k' = k)) as [->|Hne].
    + destruct (decide (k ∈ k :: ks)) as [_|Hn]; [|exfalso; apply Hn; left].
      destruct (kept data k) as [[k0 v]|] eqn:Ek.
      * assert (k0 = k) as ->.
        { unfold kept in Ek. destruct (assoc k data); [|done].
          destruct (is_defined v0); [|done]. by injection Ek as ->. }
        simpl. by destruct (decide (k = k)).
      * rewrite IH. by destruct (decide (k ∈ ks)).
    + assert (Hiff : k ∈ k' :: ks <-> k ∈ ks).
      { rewrite elem_of_cons. split; [intros [?|?]; [congruence|done]|by right]. }
      destruct (kept data k') as [[k0 v]|] eqn:Ek.
      * assert (k0 = k') as ->.
        { unfold kept in Ek. destruct (assoc k' data); [|done].
          destruct (is_defined v0); [|done]. by injection Ek as ->. }
        simpl. destruct (decide (k' = k)); [done|]. rewrite IH.
        destruct (decide (k ∈ ks)), (decide (k ∈ k' :: ks)); tauto || done.
      * rewrite IH.
        destruct (decide (k ∈ ks)), (decide (k ∈ k' :: ks)); tauto || done.
Qed.

(** X15.  What [sanitizeData] returns holds exactly the properties of
    the data whose name is in the allowed list and whose value is not
    [undefined], each with its value unchanged and once; none of
    [input], [output], [content], [subject], [context], [result] is
    ever in it. *)
Theorem sanitizeData_allow_list (data : list (jsstring * value)) :
  NoDup (sanitizeData data).*1
  /\ (forall k v,
        (k, v) ∈ sanitizeData data
        <-> k ∈ allowed /\ assoc k data = Some v /\ v <> VUndefined)
  /\ forall k, k ∈ deleted -> k ∉ (sanitizeData data).*1.
Proof.
  rewrite sanitizeData_kept.
  assert (Hiff : forall k v,
             (k, v) ∈ omap (kept data) allowed
             <-> k ∈ allowed /\ assoc k data = Some v /\ v <> VUndefined).
  { intros k v. rewrite list_elem_of_omap. unfold kept. split.
    - intros (k0 & Hin & Hk).
      destruct (assoc k0 data) as [v0|] eqn:Ea; [|done].
      destruct (is_defined v0) eqn:Ed; [|done].
      injection Hk as -> ->. repeat split; try done. by intros ->.
    - intros (Hin & Ha & Hv). exists k. split; [done|]. rewrite Ha.
      by destruct v. }
  split; [|split].
  - pose proof allowed_NoDup as Hnd. revert Hnd.
    generalize allowed. intros ks. induction 1 as [|k ks Hk Hnd IH].
    + constructor.
    + cbn [omap list_omap]. destruct (kept data k) as [[k0 v]|] eqn:Ek; [|done].
      assert (k0 = k) as ->.
      { unfold kept in Ek. destruct (assoc k data); [|done].
        destruct (is_defined v0); [|done]. by injection Ek as ->. }
      rewrite fmap_cons. constructor; [|done].
      intros Hin. by apply omap_kept_keys in Hin.
  - exact Hiff.
  - intros k Hdel Hin. apply omap_kept_keys in Hin.
    by apply allowed_not_deleted in Hin.
Qed.

(** X16.  Sanitising is idempotent: data that has been through
    [sanitizeData] goes through it again unchanged. *)
Theorem sanitizeData_idempotent (data : list (jsstring * value)) :
  sanitizeData (sanitizeData data) = sanitizeData data.
Proof.
  rewrite (sanitizeData_kept (sanitizeData data)).
  rewrite (sanitizeData_kept data) at 2.
  apply omap_ext_elem. intros k Hk.
  unfold kept at 1. rewrite sanitizeData_kept, assoc_omap_kept.
  destruct (decide (k ∈ allowed)); [|done].
  unfold kept. destruct (assoc k data) as [v|]; [|done].
  destruct (is_defined v) eqn:Ed; [|done]. simpl. by rewrite Ed.
Qed.

Lemma assoc_log_entry (k : jsstring) (data o : list (jsstring * value)) :
  k ∉ data.*1 ->
  assoc k (foldl (fun o p => obj_set p.1 p.2 o) o data) = assoc k o.
Proof.
  revert o. induction data as [|[k' v'] rest IH]; intros o; [done|].
  rewrite fmap_cons, not_elem_of_cons. intros [Hne Hrest]. simpl.
  rewrite (IH _ Hrest), assoc_obj_set. simpl in Hne.
  by destruct (decide (k' = k)); [congruence|].
Qed.

Lemma assoc_app_absent (k : jsstring) (a b : list (jsstring * value)) :
  k ∉ a.*1 -> assoc k (a ++ b) = assoc k b.
Proof.
  induction a as [|[k' v'] rest IH]; [done|].
  rewrite fmap_cons, not_elem_of_cons. simpl. intros [Hne Hrest].
  destruct (decide (k' = k)); [congruence|]. by apply IH.
Qed.

Lemma assoc_filter_not_index (k : jsstring)
    (props : list (jsstring * value)) :
  is_index k = false ->
  assoc k (filter (fun p => is_index p.1 = false) props) = assoc k props.
Proof.
  intros Hk. induction props as [|[k' v'] rest IH]; [done|].
  destruct (is_index k') eqn:Hk'.
  - rewrite filter_cons_False by (simpl; congruence). simpl.
    destruct (decide (k' = k)) as [->|]; [congruence|exact IH].
  - rewrite filter_cons_True by done. simpl.
    destruct (decide (k' = k)); [done|exact IH].
Qed.

(** The order of the properties changes nothing in what is read under
    a name that is not an index. *)
Lemma assoc_own_property_order (k : jsstring)
    (props : list (jsstring * value)) :
  is_index k = false -> assoc k (own_property_order props) = assoc k props.
Proof.
  intros Hk. unfold own_property_order.
  rewrite assoc_app_absent.
  - by apply assoc_filter_not_index.
  - intros Hin. apply list_elem_of_fmap in Hin as ([k' v'] & -> & Hin).
    rewrite merge_sort_Permutation in Hin.
    apply list_elem_of_filter in Hin as [Hi _]. simpl in Hi, Hk. congruence.
Qed.

Lemma allowed_not_index (k : jsstring) : k ∈ allowed -> is_index k = false.
Proof.
  assert (H : Forall (fun k => is_index k = false) allowed)
    by (apply (bool_decide_unpack _); vm_compute; reflexivity).
  rewrite Forall_forall in H. apply H.
Qed.

(** The integer indices of the logged data come before [operation]. *)
Example log_entry_order :
  (log_entry (VStr (js "extract"))
     [(js "7", VNull); (js "10", VNull); (js "b", VNull)]).*1
  = [js "7"; js "10"; js "operation"; js "b"].
Proof. vm_compute. reflexivity. Qed.

(** X17.  Of what [log(operation, data)] hands to telemetry, only the
    name of the operation is left after sanitising, when the logged
    data has none of the allowed names (as [{ input, schema, result }]
    or [{ context, actions, result }] have none): no logged content is
    kept. *)
Theorem log_sends_operation_only (operation : value)
    (data : list (jsstring * value)) :
  (forall k, k ∈ data.*1 -> k ∉ allowed) ->
  sanitizeData (log_entry operation data)
  = if is_defined operation then [(js "operation", operation)] else [].
Proof.
  intros Hnone. rewrite sanitizeData_kept.
  rewrite (omap_ext_elem _ (kept [(js "operation", operation)])).
  - destruct operation; vm_compute; reflexivity.
  - intros k Hk. unfold kept, log_entry.
    rewrite (assoc_own_property_order k _ (allowed_not_index k Hk)).
    rewrite assoc_log_entry; [done|].
    intros Hin. by apply Hnone in Hin.
Qed.

Lemma log_sends_operation_only_witness :
  sanitizeData
    (log_entry (VStr (js "extract"))
       [(js "input", VStr (js "private text"));
        (js "schema", VObj [(js "name", VStr (js "string"))]);
        (js "result", VObj [(js "success", VBool true)])])
  = [(js "operation", VStr (js "extract"))].
Proof.
  apply (log_sends_operation_only (VStr (js "extract"))).
  intros k Hk.
  assert (H : Forall (fun k => k ∉ allowed)
                [js "input"; js "schema"; js "result"])
    by (apply (bool_decide_unpack _); vm_compute; reflexivity).
  rewrite Forall_forall in H. apply H, Hk.
Defined.

(** ** Properties of the toolkit's use of the executor *)

Lemma or_else_twice (a b : value) : or_else (or_else a b) b = or_else a b.
Proof.
  unfold or_else. destruct (truthy a) eqn:E; [by rewrite E|].
  by destruct (truthy b).
Qed.

Lemma falsy_names_no_action (decision : value) :
  truthy decision = false -> names_action decision = false.
Proof. destruct decision; try reflexivity. discriminate. Qed.

Lemma result_action (s a r c p : value) :
  assoc (js "action")
    [(js "success", s); (js "action", a); (js "reasoning", r);
     (js "confidence", c); (js "parameters", p)]
  = Some a.
Proof. vm_compute. reflexivity. Qed.

Lemma result_parameters (s a r c p : value) :
  assoc (js "parameters")
    [(js "success", s); (js "action", a); (js "reasoning", r);
     (js "confidence", c); (js "parameters", p)]
  = Some p.
Proof. vm_compute. reflexivity. Qed.

Lemma decide_result_spec (parsed result : value) :
  decide_result parsed = Normal result ->
  exists s a r c p,
    get_prop parsed (js "action") = Normal a
    /\ get_prop parsed (js "parameters") = Normal p
    /\ result
       = VObj [(js "success", s); (js "action", or_else a VNull);
               (js "reasoning", r); (js "confidence", c);
               (js "parameters", or_else p (VObj []))].
Proof.
  unfold decide_result.
  destruct (get_prop parsed (js "error")) as [e|]; [|discriminate].
  destruct (get_prop parsed (js "action")) as [a|]; [|discriminate].
  destruct (get_prop parsed (js "reasoning")) as [g|]; [|discriminate].
  destruct (get_prop parsed (js "confidence")) as [c|]; [|discriminate].
  destruct (get_prop parsed (js "parameters")) as [p|]; [|discriminate].
  unfold bind. intros [= <-]. by eexists _, a, _, _, p.
Qed.

Section ToolkitFacts.

Variable call : N -> value -> outcome.

(** X18.  [execute()] without a decision, after a [decide] that stored
    its result, does what the executor does on the parsed decision
    itself: the same settlement after the same calls, with the
    parameters of the decision (or [{}]), and the rejection
    [Invalid decision] when the decision chose no action.  A decision
    given to [execute] is used as it is. *)
Theorem toolkit_execute_after_decide (this this' : toolkit) (ex : executor)
    (parsed result decision : value) (h : gmap loc hobj) :
  tk_executor this = Some ex ->
  decide_store this parsed = Normal (result, this') ->
  (truthy decision = false ->
   toolkit_execute call this' decision h = execute call ex parsed h)
  /\ (truthy decision = true ->
      toolkit_execute call this' decision h = execute call ex decision h).
Proof.
  intros Hex Hstore. unfold decide_store in Hstore.
  destruct (decide_result parsed) as [r|] eqn:Er; [|discriminate].
  unfold bind in Hstore. injection Hstore as <- <-.
  unfold toolkit_execute. cbn [tk_executor tk_lastResult]. rewrite Hex.
  split; intros Ht; rewrite Ht; cbn [negb andb]; [|done].
  apply decide_result_spec in Er as (s & a & g & c & p & Ha & Hp & ->).
  change (truthy (VObj ?x)) with true. cbv iota.
  unfold get_prop at 1. rewrite result_action. cbn [from_option id].
  destruct (truthy a) eqn:Eta.
  - assert (Hor : or_else a VNull = a) by (unfold or_else; by rewrite Eta).
    rewrite Hor, Eta.
    destruct (decision_with_action parsed a Ha Eta) as (props & -> & Hprops).
    unfold get_prop in Hp. injection Hp as <-.
    rewrite (execute_lookup call ex props a h Hprops Eta).
    rewrite (execute_lookup call ex _ a h (result_action _ _ _ _ _) Eta).
    rewrite result_parameters. cbn [from_option id].
    by rewrite !or_else_twice.
  - assert (Hor : or_else a VNull = VNull)
      by (unfold or_else; by rewrite Eta).
    rewrite Hor. cbn [truthy].
    rewrite (execute_without_action call ex decision h
               (falsy_names_no_action decision Ht)).
    symmetry. apply execute_without_action.
    destruct parsed; try reflexivity. unfold get_prop in Ha.
    injection Ha as <-. exact Eta.
Qed.

(** X19.  A toolkit made without an executor rejects every [execute]
    with [Executor not configured].  The first [registerAction] makes
    the executor, also when the registration itself throws, and keeps
    [lastResult].  After [registerAction(name, f)], [execute] on a
    decision for [name] calls the default validator and then [f], each
    with the parameters of the decision or [{}], and goes on as the
    [try] statement of the executor does; after a registration refused
    for a handler that is not a function, [execute] on a decision that
    names an action by a plain value answers [Unknown action] where it
    answered [Executor not configured]. *)
Theorem registerAction_creates_executor (last : value) (name : jsstring)
    (handler metadata : value) (h : gmap loc hobj) :
  (forall decision,
     toolkit_execute call (without_executor last) decision h
     = (Settled (Abrupt (Raised executor_not_configured)), []))
  /\ tk_executor
       (registerAction (without_executor last) name handler metadata h).1.2
     = Some (new_executor h).1
  /\ tk_lastResult
       (registerAction (without_executor last) name handler metadata h).1.2
     = last
  /\ (forall f,
        handler = VFun f -> metadata = VUndefined ->
        (registerAction (without_executor last) name handler metadata h).1.1
        = Normal (new_executor h).1
        /\ forall props,
             assoc (js "action") props = Some (VStr name) -> name <> [] ->
             fst (toolkit_execute call
                    (registerAction (without_executor last) name handler
                       metadata h).1.2
                    (VObj props)
                    (registerAction (without_executor last) name handler
                       metadata h).2)
             = fst (run_handler call (VStr name) f
                      (or_else
                         (default VUndefined (assoc (js "parameters") props))
                         (VObj [])))
             /\ snd (toolkit_execute call
                       (registerAction (without_executor last) name handler
                          metadata h).1.2
                       (VObj props)
                       (registerAction (without_executor last) name handler
                          metadata h).2)
                = [Called FnAlwaysTrue
                     (or_else
                        (default VUndefined (assoc (js "parameters") props))
                        (VObj []));
                   Called f
                     (or_else
                        (default VUndefined (assoc (js "parameters") props))
                        (VObj []))]
                  ++ snd (run_handler call (VStr name) f
                            (or_else
                               (default VUndefined
                                  (assoc (js "parameters") props))
                               (VObj []))))
  /\ ((forall f, handler <> VFun f) ->
      (registerAction (without_executor last) name handler metadata h).1.1
      = Abrupt (InvalidHandler name)
      /\ forall props action,
           assoc (js "action") props = Some action -> truthy action = true ->
           plain action = true ->
           toolkit_execute call
             (registerAction (without_executor last) name handler
                metadata h).1.2
             (VObj props)
             (registerAction (without_executor last) name handler
                metadata h).2
           = (Settled (Abrupt (UnknownAction action)), [])).
Proof.
  split; [done|].
  unfold registerAction, without_executor. cbn [tk_executor tk_lastResult].
  destruct (new_executor h) as [ex h1] eqn:Enew.
  destruct (new_executor_spec h ex h1 Enew) as [Hreg _].
  destruct (register ex name handler metadata h1) as [r h'] eqn:Er.
  cbn [fst snd tk_executor tk_lastResult].
  split; [done|]. split; [done|]. split.
  - intros f -> ->. unfold register in Er.
    rewrite (map_at_lookup _ _ _ Hreg) in Er.
    cbn [map_has map_get defaulted] in Er.
    change (make_config name f (VObj []))
      with (Normal (default_config name f)) in Er.
    cbn [map_set] in Er. injection Er as <- <-. split; [done|].
    intros props Ha Hne. unfold toolkit_execute.
    cbn [tk_executor negb andb truthy].
    rewrite (execute_lookup call ex props (VStr name) _ Ha);
      [|by destruct name].
    rewrite (map_at_lookup _ _ _ (lookup_insert_eq _ _ _)).
    cbn [registry_get map_get]. destruct (decide (name = name)); [|done].
    cbv zeta.
    cbn [default_config cfg_validate cfg_handler cfg_requiresConfirmation
         call_fn truthy negb].
    by destruct (run_handler call (VStr name) f _).
  - intros Hnf. unfold register in Er.
    assert (r = Abrupt (InvalidHandler name) /\ h' = h1) as [-> ->].
    { destruct handler; try (by injection Er as <- <-).
      by destruct (Hnf f). }
    split; [done|]. intros props action Ha Ht Hplain. unfold toolkit_execute.
    cbn [tk_executor negb andb truthy].
    rewrite (execute_lookup call ex props action _ Ha Ht).
    rewrite (map_at_lookup _ _ _ Hreg).
    assert (registry_get action [] = None) as -> by (by destruct action).
    unfold unknown_action. by rewrite (plain_to_primitive call action Hplain).
Qed.

End ToolkitFacts.

Lemma toolkit_execute_after_decide_witness :
  toolkit_execute call_sample
    {| tk_executor := Some sample_executor;
       tk_lastResult :=
         VObj [(js "success", VBool true); (js "action", VStr (js "b"));
               (js "reasoning", VStr []); (js "confidence", VNum 0);
               (js "parameters", VObj [(js "id", VStr (js "7"))])] |}
    VUndefined sample_heap
  = execute call_sample sample_executor
      (VObj [(js "action", VStr (js "b"));
             (js "parameters", VObj [(js "id", VStr (js "7"))])])
      sample_heap.
Proof.
  apply (toolkit_execute_after_decide call_sample
           {| tk_executor := Some sample_executor; tk_lastResult := VNull |}
           _ sample_executor
           (VObj [(js "action", VStr (js "b"));
                  (js "parameters", VObj [(js "id", VStr (js "7"))])])
           (VObj [(js "success", VBool true); (js "action", VStr (js "b"));
                  (js "reasoning", VStr []); (js "confidence", VNum 0);
                  (js "parameters", VObj [(js "id", VStr (js "7"))])])
           VUndefined sample_heap).
  - reflexivity.
  - vm_compute. reflexivity.
  - reflexivity.
Defined.

(** *** Replacing a handler *)

(** X20.  In every state reached from [new ActionExecutor()] by calls
    of [register], [unregister] and [clear], [unregister(name)]
    followed by [register(name, f)] always succeeds (where [register]
    alone throws for a registered name), and the action is then the
    last one of the registry, with the handler [f] and the default
    metadata; the other entries keep their order. *)
Theorem reregister_moves_to_end (h0 : gmap loc hobj)
    (cs : list registry_call) (name : jsstring) (f : fn) :
  (register (new_executor h0).1 name (VFun f) VUndefined
     (unregister (new_executor h0).1 name
        (run_calls (new_executor h0).1 cs (new_executor h0).2)).2).1
  = Normal (new_executor h0).1
  /\ filter (fun e => e.1 <> name)
       (map_at (registry (new_executor h0).1)
          (run_calls (new_executor h0).1 cs (new_executor h0).2))
     ++ [(name, default_config name f)]
     = map_at (registry (new_executor h0).1)
         (register (new_executor h0).1 name (VFun f) VUndefined
            (unregister (new_executor h0).1 name
               (run_calls (new_executor h0).1 cs (new_executor h0).2)).2).2.
Proof.
  destruct (reached_wf h0 cs) as (es & Hreg & Hnd).
  set (this := (new_executor h0).1) in *.
  set (h := run_calls this cs (new_executor h0).2) in *.
  assert (Hafter : (unregister this name h).2 !! registry this
                   = Some (HMap (map_delete name es))).
  { unfold unregister. cbn [snd]. rewrite (map_at_lookup _ _ _ Hreg).
    apply lookup_insert_eq. }
  unfold register. rewrite (map_at_lookup _ _ _ Hafter).
  rewrite (map_delete_absent name es Hnd). cbn [defaulted].
  change (make_config name f (VObj []))
    with (Normal (default_config name f)).
  cbn [fst snd]. split; [done|].
  rewrite (map_at_lookup _ _ _ (lookup_insert_eq _ _ _)).
  rewrite (map_at_lookup _ _ _ Hreg).
  rewrite (map_set_absent _ _ _ (map_delete_absent name es Hnd)).
  by rewrite (map_delete_filter _ _ Hnd).
Qed.
